(** * Dent: the C interface of the engine and its host programs

    The repository ships the C header of the engine ([cdent.h]), a
    command-line query tool and two example programs.  This development
    embeds the host programs as functions from their command line to the
    sequence of engine calls they perform and the way the process ends.  The
    engine itself is seen through the header: an interface [Cdent] whose
    operations are the header's functions. *)

From Stdlib Require Import ZArith List String Ascii Bool Lia.
Import ListNotations.

Open Scope string_scope.
Open Scope Z_scope.

(** ** The part of the C library the query tool relies on *)

Module LibC.

(** [unsigned long] and [size_t] are 64 bits wide on the target
    (the sources include glibc's [bits/stdint-intn.h]). *)
Definition ULONG_MAX : Z := 2 ^ 64 - 1.

Definition EXIT_SUCCESS : Z := 0.
Definition EXIT_FAILURE : Z := 1.

(** The string terminator, and the double quote (code 34). *)
Definition NUL : ascii := "000"%char.
Definition DQUOTE : ascii := "034"%char.

(** A C string stops at its first NUL. *)
Fixpoint c_str (s : string) : string :=
  match s with
  | EmptyString => EmptyString
  | String c r => if Ascii.eqb c NUL then EmptyString else String c (c_str r)
  end.

(** [isspace] in the C locale: space, and \t \n \v \f \r (9 to 13). *)
Definition isspace (c : ascii) : bool :=
  let n := Z.of_nat (nat_of_ascii c) in
  (n =? 32) || ((9 <=? n) && (n <=? 13)).

Definition digit_val (c : ascii) : option Z :=
  let n := Z.of_nat (nat_of_ascii c) in
  if (48 <=? n) && (n <=? 57) then Some (n - 48) else None.

Fixpoint skip_space (s : string) : string :=
  match s with
  | String c r => if isspace c then skip_space r else s
  | EmptyString => s
  end.

(** The value of the longest run of decimal digits [s] starts with,
    continuing the value [acc]; an empty run leaves [acc]. *)
Fixpoint digits_value (s : string) (acc : Z) : Z :=
  match s with
  | String c r =>
      match digit_val c with
      | Some d => digits_value r (acc * 10 + d)
      | None => acc
      end
  | EmptyString => acc
  end.

Definition strip_sign (s : string) : bool * string :=
  match s with
  | String c r =>
      if Ascii.eqb c "-" then (true, r)
      else if Ascii.eqb c "+" then (false, r)
      else (false, s)
  | EmptyString => (false, s)
  end.

(** [strtoul (s, NULL, 10)]: leading white space is skipped, a sign is
    accepted, the digits that follow are converted and the rest of the string
    is ignored; no digit at all gives 0, a value that does not fit gives
    [ULONG_MAX], and a minus sign negates the value in [unsigned long]. *)
Definition strtoul (s : string) : Z :=
  let '(neg, body) := strip_sign (skip_space s) in
  let v := digits_value body 0 in
  if ULONG_MAX <? v then ULONG_MAX
  else if neg then (- v) mod 2 ^ 64
  else v.

(** What [strtoul] converts: the string after the white space and the sign. *)
Definition subject (s : string) : string := snd (strip_sign (skip_space s)).

Definition starts_with_digit (s : string) : bool :=
  match s with
  | String c _ => match digit_val c with Some _ => true | None => false end
  | EmptyString => false
  end.

Fixpoint all_digits (s : string) : bool :=
  match s with
  | String c r => match digit_val c with Some _ => all_digits r | None => false end
  | EmptyString => true
  end.

(** A decimal numeral: one digit or more and nothing else. *)
Definition decimal_numeral (s : string) : bool :=
  match s with
  | EmptyString => false
  | String _ _ => all_digits s
  end.

(** The tool's own [strndup]: the first [n] bytes of [str], terminated. *)
Definition strndup (str : string) (n : nat) : string := substring 0 n str.

(** Pointer arithmetic [str + n]. *)
Fixpoint advance (n : nat) (str : string) : string :=
  match n, str with
  | S m, String _ r => advance m r
  | _, _ => str
  end.

End LibC.

(** ** The interface declared by [cdent.h]

    [V] is what a non-null [dent_value_t*] points to; a function returning
    [dent_value_t*] or [char*] returns an [option], [None] being the null
    pointer.  [uintptr_t] and [int64_t] results are integers, a [double] is
    its bit pattern, and the buffer of [dent_parse] with its length is a
    string.  The four [void] functions ([dent_init], [dent_shutdown],
    [dent_free], [dent_free_str]) return nothing and appear as events only.
    [dent_list_get] and [dent_dict_get], which no program of the repository
    calls, are left out. *)

Class Cdent (V : Type) : Type := {
  dent_parse : string -> option V;
  dent_parse_file : string -> option V;
  dent_get : V -> string -> option V;
  dent_get_index : V -> Z -> option V;
  dent_is_none : V -> bool;
  dent_is_str : V -> bool;
  dent_is_bool : V -> bool;
  dent_is_int : V -> bool;
  dent_is_float : V -> bool;
  dent_is_list : V -> bool;
  dent_is_dict : V -> bool;
  dent_len : V -> Z;
  dent_is_empty : V -> bool;
  dent_as_str : V -> option string;
  dent_as_bool : V -> bool;
  dent_as_int : V -> Z;
  dent_as_float : V -> Z;
  dent_to_str : V -> option string
}.

(** ** Runs of a host program *)

(** An argument of a [printf] call. *)
Inductive parg : Type :=
| PStr (s : string)
| PChar (c : ascii)
| PSize (n : Z)
| PLong (n : Z).

(** The calls a host program makes on the engine and on [printf], with
    their arguments and results.  Format strings are kept as the source
    writes them; [malloc] and [free] of the tool's own buffers are left
    out. *)
Inductive event (V : Type) : Type :=
| EvInit
| EvShutdown
| EvParse (input : string) (r : option V)
| EvParseFile (path : string) (r : option V)
| EvFree (h : V)
| EvGet (v : V) (key : string) (r : option V)
| EvGetIndex (v : V) (index : Z) (r : option V)
| EvIsStr (v : V) (b : bool)
| EvIsInt (v : V) (b : bool)
| EvIsList (v : V) (b : bool)
| EvIsDict (v : V) (b : bool)
| EvLen (v : V) (n : Z)
| EvAsStr (v : V) (r : option string)
| EvAsInt (v : V) (n : Z)
| EvToStr (v : V) (r : option string)
| EvFreeStr (s : string)
| EvPrintf (fmt : string) (args : list parg).

Arguments EvInit {V}.
Arguments EvShutdown {V}.
Arguments EvParse {V} input r.
Arguments EvParseFile {V} path r.
Arguments EvFree {V} h.
Arguments EvGet {V} v key r.
Arguments EvGetIndex {V} v index r.
Arguments EvIsStr {V} v b.
Arguments EvIsInt {V} v b.
Arguments EvIsList {V} v b.
Arguments EvIsDict {V} v b.
Arguments EvLen {V} v n.
Arguments EvAsStr {V} v r.
Arguments EvAsInt {V} v n.
Arguments EvToStr {V} v r.
Arguments EvFreeStr {V} s.
Arguments EvPrintf {V} fmt args.

(** How a run ends: the process exits with a status, or the program passes
    a null pointer where the callee reads through it (or overflows a signed
    sum), which C leaves undefined.  The trace of a run that ends [Undefined]
    stops before the undefined call: it says what the program has done up to
    there and nothing of what follows.  [OutOfFuel] is the model's own: a
    loop given too few iterations. *)
Inductive outcome : Type :=
| Exit (status : Z)
| Undefined
| OutOfFuel.

Definition run (V : Type) : Type := (list (event V) * outcome)%type.

Definition halt {V : Type} (o : outcome) : run V := ([], o).

Definition emit {V : Type} (e : event V) (k : run V) : run V :=
  (e :: fst k, snd k).

Notation "e ;; k" := (emit e k) (at level 100, k at level 200, right associativity).

(** ** The command-line query tool *)

Module QueryTool.
Import LibC.

Section Tool.
Context {V : Type} {E : Cdent V}.

(** The scan [while (query[pos] != c) { if (query[pos] == '\0') fail; pos++; }]:
    how far the next [c] is, [None] when the string ends first. *)
Fixpoint find_char (c : ascii) (s : string) : option nat :=
  match s with
  | EmptyString => None
  | String a r => if Ascii.eqb a c then Some O else option_map S (find_char c r)
  end.

(** The scan of a bare key: up to a space, the end, a bracket or a dot. *)
Definition key_stop (c : ascii) : bool :=
  Ascii.eqb c " " || Ascii.eqb c "[" || Ascii.eqb c ".".

Fixpoint key_len (s : string) : nat :=
  match s with
  | EmptyString => O
  | String a r => if key_stop a then O else S (key_len r)
  end.

(** After the loop: print the selected value and release everything.  The
    source tests neither [current] nor [value_str]: [dent_to_str] is handed
    [current] and [printf] is handed [value_str] as they are, and a null
    pointer there is read through.  The run is cut before such a call. *)
Definition finish (value : V) (current : option V) : run V :=
  match current with
  | None => halt Undefined
  | Some cur =>
      let value_str := dent_to_str cur in
      EvToStr cur value_str ;;
      match value_str with
      | None => halt Undefined
      | Some str =>
          EvPrintf "%s\n" [PStr str] ;;
          EvFreeStr str ;;
          EvFree value ;;
          EvShutdown ;;
          halt (Exit EXIT_SUCCESS)
      end
  end.

Definition exit_failure (msg : string) (args : list parg) : run V :=
  EvPrintf msg args ;; halt (Exit EXIT_FAILURE).

(** A key selector, once the key is delimited: [dent_get], the null check,
    and the loop goes on at [next_pos]. *)
Definition select_key (loop : option V -> string -> run V)
    (cur : V) (key : string) (next_pos : string) : run V :=
  let next := dent_get cur key in
  EvGet cur key next ;;
  match next with
  | None => exit_failure "Error: key not found\n" []
  | Some _ => loop next next_pos
  end.

(** The [while (true)] loop of [main]; [q] is [query + pos]. *)
Fixpoint query_loop (fuel : nat) (value : V) (current : option V) (q : string)
    : run V :=
  match fuel with
  | O => halt OutOfFuel
  | S fuel' =>
    match q with
    | EmptyString => finish value current
    | String c rest =>
      if Ascii.eqb c "[" then
        match current with
        | None => halt Undefined
        | Some cur =>
          let is_list := dent_is_list cur in
          EvIsList cur is_list ;;
          if negb is_list then exit_failure "Error: value is not a list\n" []
          else
            match find_char "]" rest with
            | None => exit_failure "Error: unexpected end of query\n" []
            | Some n =>
              let index_str := strndup rest n in
              let index := strtoul index_str in
              let len := dent_len cur in
              EvLen cur len ;;
              if len <=? index then exit_failure "Error: index out of bounds\n" []
              else
                let next := dent_get_index cur index in
                EvGetIndex cur index next ;;
                query_loop fuel' value next (advance (S n) rest)
            end
        end
      else if Ascii.eqb c " " then query_loop fuel' value current rest
      else if Ascii.eqb c "." then
        match current with
        | None => halt Undefined
        | Some cur =>
          let is_dict := dent_is_dict cur in
          EvIsDict cur is_dict ;;
          if negb is_dict then exit_failure "Error: value is not a dict\n" []
          else
            match rest with
            | EmptyString => finish value current
            | String c' rest' =>
              if Ascii.eqb c' DQUOTE then
                match find_char DQUOTE rest' with
                | None => exit_failure "Error: unexpected end of query\n" []
                | Some len =>
                  (* [pos] is left on the closing quote *)
                  select_key (query_loop fuel' value) cur
                    (strndup rest' len) (advance len rest')
                end
              else
                let len := key_len rest in
                select_key (query_loop fuel' value) cur
                  (strndup rest len) (advance len rest)
            end
        end
      else exit_failure "Error: unexpected character '%c'\n" [PChar c]
    end
  end.

(** [parse_args] and [main]: [argv] holds the [argc] arguments. *)
Definition main (argv : list string) : run V :=
  match argv with
  | [] => halt Undefined
  | [argv0] | [argv0; _] =>
      exit_failure "Usage: %s <file> <query>\n" [PStr argv0]
  | _ :: file :: query :: _ =>
      EvInit ;;
      let value := dent_parse_file file in
      EvParseFile file value ;;
      match value with
      | None => exit_failure "Error parsing dent data\n" []
      | Some root =>
          let q := c_str query in
          query_loop (S (String.length q)) root (Some root) q
      end
  end.

End Tool.
End QueryTool.

(** ** [examples/simple.c] *)

Module Simple.
Import LibC.

Section Program.
Context {V : Type} {E : Cdent V}.

(** [{ name: simple version: "0.0.1" }] *)
Definition dent_data : string :=
  "{ name: simple version: " ++ String DQUOTE "0.0.1" ++ String DQUOTE " }".

Definition exit_failure (msg : string) : run V :=
  EvPrintf msg [] ;; halt (Exit EXIT_FAILURE).

(** [main].  The source does not test [name_str]: a null [name_str] is
    handed to [printf] for [%s], which reads through it.  The run is cut
    before that call; what the program does after it is not modelled. *)
Definition main : run V :=
  EvInit ;;
  let value := dent_parse dent_data in
  EvParse dent_data value ;;
  match value with
  | None => exit_failure "Error parsing dent data\n"
  | Some root =>
      let name := dent_get root "name" in
      EvGet root "name" name ;;
      match name with
      | None => exit_failure "Error getting name\n"
      | Some nm =>
          let is_str := dent_is_str nm in
          EvIsStr nm is_str ;;
          if negb is_str then exit_failure "Error name is not a string\n"
          else
            let name_str := dent_as_str nm in
            EvAsStr nm name_str ;;
            match name_str with
            | None => halt Undefined
            | Some str =>
                EvPrintf "Name: %s\n" [PStr str] ;;
                EvFreeStr str ;;
                EvFree root ;;
                EvShutdown ;;
                halt (Exit EXIT_SUCCESS)
            end
      end
  end.

End Program.
End Simple.

(** ** [examples/functions.c] *)

Module Functions.
Import LibC.

Section Program.
Context {V : Type} {E : Cdent V}.

Definition dent_data : string := "@merge [ [ 1 2 ] [ 3 4 ] ]".

Definition exit_failure (msg : string) : run V :=
  EvPrintf msg [] ;; halt (Exit EXIT_FAILURE).

Definition INT64_MIN : Z := - 2 ^ 63.
Definition INT64_MAX : Z := 2 ^ 63 - 1.

(** [dent_as_int (dent_get_index (value, i))] *)
Definition as_int_at (value : V) (i : Z) (k : Z -> run V) : run V :=
  let item := dent_get_index value i in
  EvGetIndex value i item ;;
  match item with
  | None => halt Undefined
  | Some x => let n := dent_as_int x in EvAsInt x n ;; k n
  end.

(** The [for] loop, entered with [i] and [sum]. *)
Fixpoint sum_loop (fuel : nat) (value : V) (i sum : Z) : run V :=
  match fuel with
  | O => halt OutOfFuel
  | S fuel' =>
      let len := dent_len value in
      EvLen value len ;;
      if i <? len then
        let item := dent_get_index value i in
        EvGetIndex value i item ;;
        match item with
        | None => halt Undefined
        | Some x =>
            let is_int := dent_is_int x in
            EvIsInt x is_int ;;
            if negb is_int then exit_failure "Error: value is not an int\n"
            else
              as_int_at value i (fun n =>
                let sum' := sum + n in
                if (sum' <? INT64_MIN) || (INT64_MAX <? sum') then halt Undefined
                else
                  as_int_at value i (fun m =>
                    EvPrintf "Value at index %zu: %ld\n" [PSize i; PLong m] ;;
                    sum_loop fuel' value (i + 1) sum'))
        end
      else
        EvPrintf "Sum: %ld\n" [PLong sum] ;;
        EvFree value ;;
        EvShutdown ;;
        halt (Exit EXIT_SUCCESS)
  end.

Definition main : run V :=
  EvInit ;;
  let value := dent_parse dent_data in
  EvParse dent_data value ;;
  match value with
  | None => exit_failure "Error parsing dent data\n"
  | Some root =>
      let is_list := dent_is_list root in
      EvIsList root is_list ;;
      if negb is_list then exit_failure "Error: value is not a list\n"
      else sum_loop (S (Z.to_nat (dent_len root))) root 0 0
  end.

End Program.
End Functions.

(** ** The value tree behind the interface

    The header tells the variants apart with seven predicates and extracts
    four kinds of scalar; the tree below has these variants, with the
    payloads of the extraction functions' return types.  A [double] is kept
    as its 64-bit pattern.  The engine that builds and reads the tree is not
    among the sources: what this module says of it follows the
    specification, within the types the header declares. *)

Module Model.

#[local] Set Warnings "-register-all".

(** Modelled from the spec: [dent_value_t] is an opaque struct in the header
    and its definition is not in the sources.  The spec's Value is a closed
    variant: none, bool, int (64-bit signed), float (double precision),
    string, list (an ordered sequence of values) and dict (an ordered
    mapping from string keys to values).  The payloads are kept as integers;
    [representable] below says which of them an [int64_t] and a [double]
    hold. *)
Inductive value : Type :=
| VNone
| VStr (s : string)
| VBool (b : bool)
| VInt (n : Z)
| VFloat (bits : Z)
| VList (items : list value)
| VDict (entries : list (string * value)).

Definition int64 (n : Z) : Prop := - 2 ^ 63 <= n < 2 ^ 63.
Definition uint64 (n : Z) : Prop := 0 <= n < 2 ^ 64.

(** A scalar the tree can hold: an [int64_t], the bits of a [double]. *)
Definition representable (v : value) : Prop :=
  match v with
  | VInt n => int64 n
  | VFloat bits => uint64 bits
  | _ => True
  end.

(** Modelled from the spec: the bodies of the seven [dent_is_*] predicates
    are not in the sources.  The spec's type predicates are pure and total:
    each answers whether the value is of its variant. *)
Definition is_none (v : value) : bool :=
  match v with VNone => true | _ => false end.
Definition is_str (v : value) : bool :=
  match v with VStr _ => true | _ => false end.
Definition is_bool (v : value) : bool :=
  match v with VBool _ => true | _ => false end.
Definition is_int (v : value) : bool :=
  match v with VInt _ => true | _ => false end.
Definition is_float (v : value) : bool :=
  match v with VFloat _ => true | _ => false end.
Definition is_list (v : value) : bool :=
  match v with VList _ => true | _ => false end.
Definition is_dict (v : value) : bool :=
  match v with VDict _ => true | _ => false end.

(** The first entry of an ordered dictionary under [key]. *)
Fixpoint lookup (key : string) (entries : list (string * value)) : option value :=
  match entries with
  | [] => None
  | (k, v) :: rest => if String.eqb k key then Some v else lookup key rest
  end.

(** Modelled from the spec: the body of [dent_get] is not in the sources.
    The spec's [get] requires a Dict and returns the child, a not-found
    signal or a type-mismatch signal.  This engine answers the null pointer
    for both signals, the one failure the callers test for; the header does
    not say whether the engine of the repository has a second one. *)
Definition get (v : value) (key : string) : option value :=
  match v with
  | VDict entries => lookup key entries
  | _ => None
  end.

(** Modelled from the spec: the body of [dent_get_index] is not in the
    sources.  The spec's [get_index] requires a List, is zero-based and
    fails on an index out of range. *)
Definition get_index (v : value) (index : Z) : option value :=
  match v with
  | VList items => if index <? 0 then None else nth_error items (Z.to_nat index)
  | _ => None
  end.

(** What the functions whose return type has no null return when they fail;
    the spec calls them failure sentinels and does not give their values. *)
Record sentinels : Type := {
  bool_fail : bool;
  int_fail : Z;
  float_fail : Z;
  len_fail : Z;
  empty_fail : bool
}.

Definition sentinels_ok (f : sentinels) : Prop :=
  int64 (int_fail f) /\ uint64 (float_fail f) /\ uint64 (len_fail f).

(** Modelled from the spec: the body of [dent_len] is not in the sources.
    The spec's [len] is the child count of a List or Dict and the character
    count of a Str, and fails on the other kinds. *)
Definition len (f : sentinels) (v : value) : Z :=
  match v with
  | VList items => Z.of_nat (List.length items)
  | VDict entries => Z.of_nat (List.length entries)
  | VStr s => Z.of_nat (String.length s)
  | _ => len_fail f
  end.

(** Modelled from the spec: the body of [dent_is_empty] is not in the
    sources.  The spec's [is_empty] is [len == 0] on the domain of [len]. *)
Definition is_empty (f : sentinels) (v : value) : bool :=
  match v with
  | VList _ | VDict _ | VStr _ => len f v =? 0
  | _ => empty_fail f
  end.

(** Modelled from the spec: the bodies of [dent_as_str], [dent_as_bool],
    [dent_as_int] and [dent_as_float] are not in the sources.  The spec's
    extractions are strict: they return the payload of the matching variant
    and a failure sentinel for every other one; [as_str] returns a fresh
    copy of the text.  The header fixes the return types: [char*] (null on
    failure), [bool], [int64_t] and [double]. *)
Definition as_str (v : value) : option string :=
  match v with VStr s => Some s | _ => None end.

Definition as_bool (f : sentinels) (v : value) : bool :=
  match v with VBool b => b | _ => bool_fail f end.

Definition as_int (f : sentinels) (v : value) : Z :=
  match v with VInt n => n | _ => int_fail f end.

Definition as_float (f : sentinels) (v : value) : Z :=
  match v with VFloat bits => bits | _ => float_fail f end.





(** An engine over the value tree.  The parser and the serializer are not in
    the sources; an engine is given by what they answer. *)
Definition engine (f : sentinels)
    (parse parse_file : string -> option value)
    (to_str : value -> option string) : Cdent value := {|
  dent_parse := parse;
  dent_parse_file := parse_file;
  dent_get := get;
  dent_get_index := get_index;
  dent_is_none := is_none;
  dent_is_str := is_str;
  dent_is_bool := is_bool;
  dent_is_int := is_int;
  dent_is_float := is_float;
  dent_is_list := is_list;
  dent_is_dict := is_dict;
  dent_len := len f;
  dent_is_empty := is_empty f;
  dent_as_str := as_str;
  dent_as_bool := as_bool f;
  dent_as_int := as_int f;
  dent_as_float := as_float f;
  dent_to_str := to_str
|}.

(** The record of the README. *)
Definition mario : value :=
  VDict [("name", VStr "Mario");
         ("skills", VList [VStr "jumps"; VStr "grows"]);
         ("age", VInt 35);
         ("alive", VBool true)].

(** Sentinels and a placeholder serializer for the example runs. *)
Definition zero_sentinels : sentinels := {|
  bool_fail := false; int_fail := 0; float_fail := 0;
  len_fail := 0; empty_fail := true
|}.

Definition shown (v : value) : option string := Some "<value>".

(** The engine in which every input parses to [root]. *)
Definition engine_of (root : option value) : Cdent value :=
  engine zero_sentinels (fun _ => root) (fun _ => root) shown.

End Model.

(** ** Properties of runs *)

Section Properties.
Context {V : Type} {E : Cdent V}.

(** Every [dent_get_index] of the trace comes after a [dent_is_list] that
    answered true and a [dent_len], both on the value it indexes, and its
    index is below that length. *)
Definition index_guarded (tr : list (event V)) : Prop :=
  forall pre v i r post,
    tr = (pre ++ EvGetIndex v i r :: post)%list ->
    In (EvIsList v true) pre /\
    In (EvLen v (dent_len v)) pre /\
    0 <= i < dent_len v.

(** Every [dent_get] of the trace comes after a [dent_is_dict] that
    answered true on the value it searches. *)
Definition key_guarded (tr : list (event V)) : Prop :=
  forall pre v key r post,
    tr = (pre ++ EvGet v key r :: post)%list ->
    In (EvIsDict v true) pre.

(** The run indexes [v] at [i]. *)
Definition selects (r : run V) (v : V) (i : Z) : Prop :=
  exists res, In (EvGetIndex v i res) (fst r).

Definition is_printf (e : event V) : Prop :=
  match e with EvPrintf _ _ => True | _ => False end.

(** A kind check that answers false ends the run: only the error message
    follows it, and the process exits with [EXIT_FAILURE]. *)
Definition wrong_kind_exits (r : run V) : Prop :=
  forall pre v post,
    fst r = (pre ++ EvIsList v false :: post)%list \/
    fst r = (pre ++ EvIsDict v false :: post)%list ->
    Forall is_printf post /\ snd r = Exit LibC.EXIT_FAILURE.

(** The handles and strings a run obtains, and those it gives back, in the
    order of the calls. *)
Definition obtained_handles (tr : list (event V)) : list V :=
  flat_map (fun e =>
    match e with
    | EvParse _ (Some h) | EvParseFile _ (Some h) => [h]
    | _ => []
    end) tr.

Definition released_handles (tr : list (event V)) : list V :=
  flat_map (fun e => match e with EvFree h => [h] | _ => [] end) tr.

Definition obtained_strings (tr : list (event V)) : list string :=
  flat_map (fun e =>
    match e with
    | EvAsStr _ (Some s) | EvToStr _ (Some s) => [s]
    | _ => []
    end) tr.

Definition released_strings (tr : list (event V)) : list string :=
  flat_map (fun e => match e with EvFreeStr s => [s] | _ => [] end) tr.

(** A run that exits has released every handle and every string it
    obtained, each once. *)
Definition releases_everything (r : run V) : Prop :=
  forall status, snd r = Exit status ->
    released_handles (fst r) = obtained_handles (fst r) /\
    released_strings (fst r) = obtained_strings (fst r).

(** What the host programs do: every string obtained is released once; the
    handle is released once when the run exits with [EXIT_SUCCESS], and is
    not released by a run that ends in any other way. *)
Definition releases_on_success (r : run V) : Prop :=
  released_strings (fst r) = obtained_strings (fst r) /\
  (snd r = Exit LibC.EXIT_SUCCESS ->
     exists h, obtained_handles (fst r) = [h] /\ released_handles (fst r) = [h]) /\
  (snd r <> Exit LibC.EXIT_SUCCESS -> released_handles (fst r) = []).

(** The loop obtains no handle, releases the one string it obtains, and
    releases the handle exactly when it ends with [EXIT_SUCCESS]. *)
Definition loop_releases (value : V) (tr : list (event V)) (o : outcome) : Prop :=
  obtained_handles tr = [] /\
  released_strings tr = obtained_strings tr /\
  (o = Exit LibC.EXIT_SUCCESS -> released_handles tr = [value]) /\
  (o <> Exit LibC.EXIT_SUCCESS -> released_handles tr = []) /\
  o <> OutOfFuel.

(** *** The shape of the query tool's runs

    What the loop of the query tool does from a value [current] on: the
    last stretch of a run, which ends the process ... *)
Inductive last_stretch (value : V) : option V -> list (event V) -> outcome -> Prop :=
| LS_null :
    last_stretch value None [] Undefined
| LS_unexpected current fmt c :
    last_stretch value current [EvPrintf fmt [PChar c]] (Exit LibC.EXIT_FAILURE)
| LS_no_string cur :
    dent_to_str cur = None ->
    last_stretch value (Some cur) [EvToStr cur None] Undefined
| LS_printed cur str :
    dent_to_str cur = Some str ->
    last_stretch value (Some cur)
      [EvToStr cur (Some str); EvPrintf "%s\n" [PStr str]; EvFreeStr str;
       EvFree value; EvShutdown]
      (Exit LibC.EXIT_SUCCESS)
| LS_not_list cur fmt :
    dent_is_list cur = false ->
    last_stretch value (Some cur) [EvIsList cur false; EvPrintf fmt []]
      (Exit LibC.EXIT_FAILURE)
| LS_unclosed_index cur fmt :
    dent_is_list cur = true ->
    last_stretch value (Some cur) [EvIsList cur true; EvPrintf fmt []]
      (Exit LibC.EXIT_FAILURE)
| LS_out_of_bounds cur fmt :
    dent_is_list cur = true ->
    last_stretch value (Some cur)
      [EvIsList cur true; EvLen cur (dent_len cur); EvPrintf fmt []]
      (Exit LibC.EXIT_FAILURE)
| LS_not_dict cur fmt :
    dent_is_dict cur = false ->
    last_stretch value (Some cur) [EvIsDict cur false; EvPrintf fmt []]
      (Exit LibC.EXIT_FAILURE)
| LS_unclosed_key cur fmt :
    dent_is_dict cur = true ->
    last_stretch value (Some cur) [EvIsDict cur true; EvPrintf fmt []]
      (Exit LibC.EXIT_FAILURE)
| LS_not_found cur key fmt :
    dent_is_dict cur = true ->
    dent_get cur key = None ->
    last_stretch value (Some cur)
      [EvIsDict cur true; EvGet cur key None; EvPrintf fmt []]
      (Exit LibC.EXIT_FAILURE)
| LS_trailing_dot cur tr o :
    dent_is_dict cur = true ->
    last_stretch value (Some cur) tr o ->
    last_stretch value (Some cur) (EvIsDict cur true :: tr) o.

(** ... after any number of selectors that succeeded. *)
Inductive loop_run (value : V) : option V -> list (event V) -> outcome -> Prop :=
| LR_last current tr o :
    last_stretch value current tr o ->
    loop_run value current tr o
| LR_index cur index tr o :
    dent_is_list cur = true ->
    0 <= index < dent_len cur ->
    loop_run value (dent_get_index cur index) tr o ->
    loop_run value (Some cur)
      (EvIsList cur true :: EvLen cur (dent_len cur)
         :: EvGetIndex cur index (dent_get_index cur index) :: tr) o
| LR_key cur key next tr o :
    dent_is_dict cur = true ->
    dent_get cur key = Some next ->
    loop_run value (Some next) tr o ->
    loop_run value (Some cur)
      (EvIsDict cur true :: EvGet cur key (Some next) :: tr) o.

End Properties.

(** ** Paths: queries seen as lists of selectors

    A query of the tool is read one selector at a time: [.key] looks a key
    up, [[text]] takes an item.  A path is a list of such selectors and
    [render] writes it as the tool expects it. *)

Module Paths.
Import LibC.

Inductive selector : Type :=
| Key (key : string)
| Index (text : string).

Definition render_selector (s : selector) : string :=
  match s with
  | Key key => String "." key
  | Index text => String "[" (text ++ "]")
  end.

Fixpoint render (path : list selector) : string :=
  match path with
  | [] => ""
  | s :: rest => render_selector s ++ render rest
  end.

Fixpoint all_chars (ok : ascii -> bool) (s : string) : bool :=
  match s with
  | EmptyString => true
  | String c r => ok c && all_chars ok r
  end.

(** A character of a bare key: none of the three the scan of a key stops
    at, and not the terminator. *)
Definition key_char (c : ascii) : bool :=
  negb (QueryTool.key_stop c) && negb (Ascii.eqb c NUL).

(** A key the tool reads back as written: not empty, not opening with a
    quote, made of key characters. *)
Definition bare_key (key : string) : bool :=
  match key with
  | EmptyString => false
  | String c _ => negb (Ascii.eqb c DQUOTE) && all_chars key_char key
  end.

Definition index_char (c : ascii) : bool :=
  negb (Ascii.eqb c "]") && negb (Ascii.eqb c NUL).

Definition well_formed (s : selector) : bool :=
  match s with
  | Key key => bare_key key
  | Index text => all_chars index_char text
  end.

(** What may follow a bare key: the end of the query, or one of the three
    characters its scan stops at. *)
Definition delimited (q : string) : bool :=
  match q with
  | EmptyString => true
  | String c _ => QueryTool.key_stop c
  end.

(** The spaces the loop skips. *)
Fixpoint spaces (n : nat) : string :=
  match n with
  | O => ""
  | S m => String " " (spaces m)
  end.

Section Navigation.
Context {V : Type} {E : Cdent V}.

(** One selector applied to a value, by the engine's own answers: the child
    under the key of a dictionary, the item of a list at an index below its
    length. *)
Definition step (cur : V) (s : selector) : option V :=
  match s with
  | Key key => if dent_is_dict cur then dent_get cur key else None
  | Index text =>
      if dent_is_list cur && (strtoul text <? dent_len cur)
      then dent_get_index cur (strtoul text)
      else None
  end.

Fixpoint resolve (cur : V) (path : list selector) : option V :=
  match path with
  | [] => Some cur
  | s :: rest =>
      match step cur s with
      | Some next => resolve next rest
      | None => None
      end
  end.

(** The engine finds an item at every index below the length of a list:
    [dent_get_index], which the tool does not test for null, is not null
    there. *)
Definition finds_items : Prop :=
  forall (cur : V) (i : Z),
    dent_is_list cur = true -> 0 <= i < dent_len cur ->
    dent_get_index cur i <> None.

(** Why a selector fails on a value, in the words of the tool. *)
Definition complaint (cur : V) (s : selector) : option string :=
  match s with
  | Key key =>
      if negb (dent_is_dict cur) then Some "Error: value is not a dict\n"
      else match dent_get cur key with
           | None => Some "Error: key not found\n"
           | Some _ => None
           end
  | Index text =>
      if negb (dent_is_list cur) then Some "Error: value is not a list\n"
      else if dent_len cur <=? strtoul text
           then Some "Error: index out of bounds\n"
           else None
  end.

(** The run of the loop along a path, selector by selector; [after] is
    what the loop does once the path is read. *)
Fixpoint walk (after : option V -> run V) (current : option V)
    (path : list selector) : run V :=
  match path with
  | [] => after current
  | s :: rest =>
      match current with
      | None => halt Undefined
      | Some cur =>
          match s with
          | Key key =>
              EvIsDict cur (dent_is_dict cur) ;;
              if negb (dent_is_dict cur)
              then QueryTool.exit_failure "Error: value is not a dict\n" []
              else
                EvGet cur key (dent_get cur key) ;;
                match dent_get cur key with
                | None => QueryTool.exit_failure "Error: key not found\n" []
                | Some _ => walk after (dent_get cur key) rest
                end
          | Index text =>
              EvIsList cur (dent_is_list cur) ;;
              if negb (dent_is_list cur)
              then QueryTool.exit_failure "Error: value is not a list\n" []
              else
                EvLen cur (dent_len cur) ;;
                if dent_len cur <=? strtoul text
                then QueryTool.exit_failure "Error: index out of bounds\n" []
                else
                  EvGetIndex cur (strtoul text) (dent_get_index cur (strtoul text)) ;;
                  walk after (dent_get_index cur (strtoul text)) rest
          end
      end
  end.

(** The loop with the fuel [main] gives it. *)
Definition run_query (value : V) (current : option V) (q : string) : run V :=
  QueryTool.query_loop (S (String.length q)) value current q.

(** A path written with spaces before its selectors. *)
Fixpoint render_spaced (path : list (nat * selector)) : string :=
  match path with
  | [] => ""
  | (n, s) :: rest => spaces n ++ render_selector s ++ render_spaced rest
  end.

End Navigation.
End Paths.

(** ** What a run writes and when it calls the engine *)

Section Output.
Context {V : Type}.

(** The [printf] calls of a trace, in order: what the run writes. *)
Definition printed (tr : list (event V)) : list (string * list parg) :=
  flat_map (fun e => match e with EvPrintf fmt args => [(fmt, args)] | _ => [] end) tr.

(** The calls that serialize or release: absent from a run that fails. *)
Definition serializes_or_releases (e : event V) : Prop :=
  match e with
  | EvToStr _ _ | EvFree _ | EvFreeStr _ | EvShutdown => True
  | _ => False
  end.

(** A run that yields no value: it does not exit with [EXIT_SUCCESS] and
    neither serializes nor releases. *)
Definition quiet (r : run V) : Prop :=
  snd r <> Exit LibC.EXIT_SUCCESS /\
  Forall (fun e => ~ serializes_or_releases e) (fst r).

(** The calls of a selector that succeeds: checks that answer true and
    navigation that finds a value. *)
Definition is_navigation (e : event V) : Prop :=
  match e with
  | EvIsDict _ true | EvIsList _ true | EvLen _ _
  | EvGet _ _ (Some _) | EvGetIndex _ _ _ => True
  | _ => False
  end.

(** Every extraction of the trace comes after the type predicate of its
    kind answered true on the same value. *)
Definition extraction_guarded (tr : list (event V)) : Prop :=
  (forall pre v n post,
     tr = (pre ++ EvAsInt v n :: post)%list -> In (EvIsInt v true) pre) /\
  (forall pre v r post,
     tr = (pre ++ EvAsStr v r :: post)%list -> In (EvIsStr v true) pre).

(** Nothing is read through a handle that was released: after [dent_free]
    the run only shuts the engine down. *)
Definition free_is_last (tr : list (event V)) : Prop :=
  forall pre h post, tr = (pre ++ EvFree h :: post)%list -> post = [EvShutdown].

(** The engine is in use between [dent_init] and [dent_shutdown] only: a
    run that calls it at all opens with [dent_init], and [dent_shutdown] is
    the last thing it does. *)
Definition engine_bracketed (tr : list (event V)) : Prop :=
  (Forall (fun e => match e with EvPrintf _ _ => True | _ => False end) tr \/
   exists tr', tr = EvInit :: tr') /\
  (forall pre post, tr = (pre ++ EvShutdown :: post)%list -> post = []).

End Output.

(** ** The items [examples/functions.c] adds up *)

Section Items.
Context {V : Type} {E : Cdent V}.

(** [root] is a list whose items are [items], by the engine's answers. *)
Definition items_of (root : V) (items : list V) : Prop :=
  dent_len root = Z.of_nat (List.length items) /\
  forall i, (i < List.length items)%nat ->
            dent_get_index root (Z.of_nat i) = nth_error items i.

(** Every partial sum of [ns], from [acc] on, fits [int64_t]. *)
Fixpoint sums_fit (acc : Z) (ns : list Z) : Prop :=
  match ns with
  | [] => True
  | n :: rest =>
      Functions.INT64_MIN <= acc + n <= Functions.INT64_MAX /\ sums_fit (acc + n) rest
  end.

(** The lines the loop prints for the items [ns], the first at index [i]. *)
Fixpoint value_lines (i : Z) (ns : list Z) : list (string * list parg) :=
  match ns with
  | [] => []
  | n :: rest =>
      ("Value at index %zu: %ld\n", [PSize i; PLong n]) :: value_lines (i + 1) rest
  end.

End Items.

(** ** A tactic for traces

    [peel] walks an equation [e1 :: ... :: tr = pre ++ x :: post] down the
    events [e1 ...] that are known: what is left is [x] being one of them,
    or [x] standing in [tr]. *)

Ltac peel :=
  match goal with
  | H : [] = (?pre ++ _ :: _)%list |- _ =>
      destruct pre; discriminate H
  | H : (_ :: _) = (?pre ++ _ :: _)%list |- _ =>
      let a := fresh "e" in
      destruct pre as [|a pre]; simpl in H; inversion H; clear H; subst;
      peel
  | _ => idtac
  end.

(** * Proofs *)

(** ** [strtoul] *)

Lemma digit_val_range c d : LibC.digit_val c = Some d -> 0 <= d <= 9.
Proof.
  unfold LibC.digit_val.
  destruct (_ && _) eqn:H; [|discriminate].
  intros [= <-]. apply andb_prop in H. lia.
Qed.

Lemma digits_value_nonneg s : forall acc, 0 <= acc -> 0 <= LibC.digits_value s acc.
Proof.
  induction s as [|c r IH]; intros acc Hacc; simpl; [assumption|].
  destruct (LibC.digit_val c) as [d|] eqn:Hd; [|assumption].
  apply IH. apply digit_val_range in Hd. lia.
Qed.

Lemma strtoul_range s : 0 <= LibC.strtoul s <= LibC.ULONG_MAX.
Proof.
  unfold LibC.strtoul.
  destruct (LibC.strip_sign (LibC.skip_space s)) as [neg body].
  pose proof (digits_value_nonneg body 0 ltac:(lia)) as Hv.
  destruct (LibC.ULONG_MAX <? _) eqn:Hov.
  - unfold LibC.ULONG_MAX. lia.
  - apply Z.ltb_ge in Hov. destruct neg.
    + pose proof (Z.mod_pos_bound (- LibC.digits_value body 0) (2 ^ 64) ltac:(lia)).
      unfold LibC.ULONG_MAX. lia.
    + lia.
Qed.

(** ** The runs of the query tool *)

Section QueryRuns.
Context {V : Type} {E : Cdent V}.

Lemma advance_length n : forall s, (String.length (LibC.advance n s) <= String.length s)%nat.
Proof.
  induction n as [|n IH]; intros [|c r]; simpl; try lia.
  specialize (IH r). lia.
Qed.

Lemma finish_shape (value : V) current :
  last_stretch value current
    (fst (QueryTool.finish value current)) (snd (QueryTool.finish value current)).
Proof.
  unfold QueryTool.finish. destruct current as [cur|]; [|constructor].
  destruct (dent_to_str cur) as [str|] eqn:Hs; simpl.
  - now apply LS_printed.
  - now apply LS_no_string.
Qed.

Lemma select_key_shape (value : V) loop cur key next_pos :
  dent_is_dict cur = true ->
  (forall current,
     loop_run value current (fst (loop current next_pos)) (snd (loop current next_pos))) ->
  loop_run value (Some cur)
    (EvIsDict cur true :: fst (QueryTool.select_key loop cur key next_pos))
    (snd (QueryTool.select_key loop cur key next_pos)).
Proof.
  intros Hd Hloop. unfold QueryTool.select_key.
  destruct (dent_get cur key) as [next|] eqn:Hg; simpl.
  - eapply LR_key; eauto.
  - apply LR_last. now apply LS_not_found.
Qed.

(** With one unit of fuel per character left (and one more), the loop runs
    to its end, and its run has the shape [loop_run]. *)
Lemma query_loop_shape (value : V) fuel : forall current q,
  (String.length q < fuel)%nat ->
  loop_run value current
    (fst (QueryTool.query_loop fuel value current q))
    (snd (QueryTool.query_loop fuel value current q)).
Proof.
  induction fuel as [|fuel IH]; intros current q Hlen; [lia|].
  destruct q as [|c rest]; simpl.
  { apply LR_last, finish_shape. }
  simpl in Hlen.
  destruct (Ascii.eqb c "[").
  { destruct current as [cur|]; [|apply LR_last; constructor].
    destruct (dent_is_list cur) eqn:Hl; simpl.
    2:{ apply LR_last. now apply LS_not_list. }
    destruct (QueryTool.find_char "]" rest) as [n|]; simpl.
    2:{ apply LR_last. now apply LS_unclosed_index. }
    destruct (dent_len cur <=? _) eqn:Hb; simpl.
    { apply LR_last. now apply LS_out_of_bounds. }
    apply Z.leb_gt in Hb.
    apply LR_index; auto.
    - pose proof (strtoul_range (LibC.strndup rest n)). lia.
    - apply IH. pose proof (advance_length (S n) rest) as H. simpl in H. lia. }
  destruct (Ascii.eqb c " ").
  { apply IH. lia. }
  destruct (Ascii.eqb c ".").
  2:{ apply LR_last. constructor. }
  destruct current as [cur|]; [|apply LR_last; constructor].
  destruct (dent_is_dict cur) eqn:Hd; simpl.
  2:{ apply LR_last. now apply LS_not_dict. }
  destruct rest as [|c' rest'].
  { apply LR_last. apply LS_trailing_dot; auto. apply (finish_shape value (Some cur)). }
  simpl in Hlen.
  destruct (Ascii.eqb c' LibC.DQUOTE).
  - destruct (QueryTool.find_char LibC.DQUOTE rest') as [len|]; simpl.
    2:{ apply LR_last. now apply LS_unclosed_key. }
    apply select_key_shape; auto.
    intros current'. apply IH. pose proof (advance_length len rest'). lia.
  - apply select_key_shape; auto.
    intros current'. apply IH.
    pose proof (advance_length (QueryTool.key_len (String c' rest')) (String c' rest')).
    simpl in *. lia.
Qed.

End QueryRuns.

Section ShapeProperties.
Context {V : Type} {E : Cdent V}.

Lemma last_stretch_index_guarded (value : V) current tr o :
  last_stretch value current tr o -> index_guarded tr.
Proof.
  induction 1; intros pre v i r post Heq; peel.
  destruct (IHlast_stretch _ _ _ _ _ eq_refl) as (? & ? & ?).
  simpl; auto.
Qed.

Lemma loop_run_index_guarded (value : V) current tr o :
  loop_run value current tr o -> index_guarded tr.
Proof.
  induction 1 as [current tr o Hlast | cur index tr o Hl Hb Hrun IH
                 | cur key next tr o Hd Hg Hrun IH].
  - eapply last_stretch_index_guarded; eassumption.
  - intros pre v i r post Heq; peel.
    + simpl; auto.
    + destruct (IH _ _ _ _ _ eq_refl) as (? & ? & ?). simpl; auto 6.
  - intros pre v i r post Heq; peel.
    destruct (IH _ _ _ _ _ eq_refl) as (? & ? & ?). simpl; auto.
Qed.

Lemma last_stretch_key_guarded (value : V) current tr o :
  last_stretch value current tr o -> key_guarded tr.
Proof.
  induction 1; intros pre v k r post Heq; peel.
  - simpl; auto.
  - specialize (IHlast_stretch _ _ _ _ _ eq_refl). simpl; auto.
Qed.

Lemma loop_run_key_guarded (value : V) current tr o :
  loop_run value current tr o -> key_guarded tr.
Proof.
  induction 1 as [current tr o Hlast | cur index tr o Hl Hb Hrun IH
                 | cur key next tr o Hd Hg Hrun IH].
  - eapply last_stretch_key_guarded; eassumption.
  - intros pre v k r post Heq; peel.
    specialize (IH _ _ _ _ _ eq_refl). simpl; auto.
  - intros pre v k r post Heq; peel.
    + simpl; auto.
    + specialize (IH _ _ _ _ _ eq_refl). simpl; auto.
Qed.

Lemma last_stretch_wrong_kind (value : V) current tr o :
  last_stretch value current tr o -> wrong_kind_exits (tr, o).
Proof.
  induction 1; intros pre v post [Heq|Heq]; simpl in Heq; peel;
    try (split; [repeat constructor | reflexivity]);
    try solve [eapply IHlast_stretch; simpl; eauto].
Qed.

Lemma loop_run_wrong_kind (value : V) current tr o :
  loop_run value current tr o -> wrong_kind_exits (tr, o).
Proof.
  induction 1 as [current tr o Hlast | cur index tr o Hl Hb Hrun IH
                 | cur key next tr o Hd Hg Hrun IH].
  - eapply last_stretch_wrong_kind; eassumption.
  - intros pre v post [Heq|Heq]; simpl in Heq; peel;
      eapply IH; simpl; eauto.
  - intros pre v post [Heq|Heq]; simpl in Heq; peel;
      eapply IH; simpl; eauto.
Qed.

Lemma last_stretch_releases (value : V) current tr o :
  last_stretch value current tr o -> loop_releases value tr o.
Proof.
  unfold loop_releases.
  induction 1; simpl; repeat split; auto; try discriminate; try congruence;
    try tauto.
Qed.

Lemma loop_run_releases (value : V) current tr o :
  loop_run value current tr o -> loop_releases value tr o.
Proof.
  induction 1 as [current tr o Hlast | cur index tr o Hl Hb Hrun IH
                 | cur key next tr o Hd Hg Hrun IH].
  - eapply last_stretch_releases; eassumption.
  - exact IH.
  - exact IH.
Qed.

End ShapeProperties.

(** ** The query tool, from its command line *)

Section QueryMain.
Context {V : Type} {E : Cdent V}.

(** The run of [main] once the file has parsed: the two opening calls, then
    a run of the loop from the root. *)
Lemma main_parsed argv0 file query more root :
  dent_parse_file file = Some root ->
  exists tr o,
    QueryTool.main (argv0 :: file :: query :: more)
      = (EvInit :: EvParseFile file (Some root) :: tr, o) /\
    loop_run root (Some root) tr o.
Proof.
  intros Hparse.
  pose proof (query_loop_shape root (S (String.length (LibC.c_str query)))
                (Some root) (LibC.c_str query) (Nat.lt_succ_diag_r _)) as Hrun.
  eexists _, _. split; [|exact Hrun].
  unfold QueryTool.main. rewrite Hparse. reflexivity.
Qed.

(** The other runs of [main] make no call on a value. *)
Lemma main_not_parsed argv :
  (forall argv0 file query more root,
     argv = argv0 :: file :: query :: more -> dent_parse_file file <> Some root) ->
  exists tr o, QueryTool.main argv = (tr, o) /\ o <> Exit LibC.EXIT_SUCCESS /\
    o <> OutOfFuel /\
    Forall (fun e => match e with
                     | EvInit | EvPrintf _ _ | EvParseFile _ None => True
                     | _ => False
                     end) tr.
Proof.
  intros Hno.
  destruct argv as [|argv0 [|file [|query more]]]; simpl.
  - exists [], Undefined. repeat split; try discriminate. constructor.
  - eexists _, _. repeat split; try discriminate. repeat constructor.
  - eexists _, _. repeat split; try discriminate. repeat constructor.
  - destruct (dent_parse_file file) as [root|] eqn:Hp.
    + exfalso. eapply Hno; eauto.
    + eexists _, _. repeat split; try discriminate. repeat constructor.
Qed.

Lemma main_cases argv :
  (exists argv0 file query more root,
     argv = argv0 :: file :: query :: more /\ dent_parse_file file = Some root) \/
  (forall argv0 file query more root,
     argv = argv0 :: file :: query :: more -> dent_parse_file file <> Some root).
Proof.
  destruct argv as [|argv0 [|file [|query more]]]; try (right; discriminate).
  destruct (dent_parse_file file) as [root|] eqn:Hp.
  - left. eauto 8.
  - right. intros ? ? ? ? ? [= <- <- <- <-]. congruence.
Qed.

End QueryMain.

(** The loops are given fuel enough: no run stops for want of it. *)
Lemma query_tool_ends (V : Type) (E : Cdent V) (argv : list string) :
  snd (QueryTool.main argv) <> OutOfFuel.
Proof.
  destruct (main_cases argv) as [(argv0 & file & query & more & root & -> & Hp) | Hno].
  - destruct (main_parsed argv0 file query more root Hp) as (tr & o & -> & Hrun).
    now destruct (loop_run_releases _ _ _ _ Hrun) as (_ & _ & _ & _ & Ho).
  - now destruct (main_not_parsed argv Hno) as (tr & o & -> & _ & Ho & _).
Qed.

(** A run with both kinds of selector: the skills of the README's record,
    then the second of them. *)
Example second_skill :
  QueryTool.main (E := Model.engine_of (Some Model.mario))
    ["dent"; "examples/dent/dict.dent"; ".skills[1]"] =
  let skills := Model.VList [Model.VStr "jumps"; Model.VStr "grows"] in
  ([EvInit; EvParseFile "examples/dent/dict.dent" (Some Model.mario);
    EvIsDict Model.mario true; EvGet Model.mario "skills" (Some skills);
    EvIsList skills true; EvLen skills 2;
    EvGetIndex skills 1 (Some (Model.VStr "grows"));
    EvToStr (Model.VStr "grows") (Some "<value>");
    EvPrintf "%s\n" [PStr "<value>"]; EvFreeStr "<value>";
    EvFree Model.mario; EvShutdown],
   Exit LibC.EXIT_SUCCESS).
Proof. reflexivity. Qed.

(** An index selector on a value that is not a list. *)
Example index_of_a_string :
  QueryTool.main (E := Model.engine_of (Some Model.mario))
    ["dent"; "examples/dent/dict.dent"; ".name[0]"] =
  ([EvInit; EvParseFile "examples/dent/dict.dent" (Some Model.mario);
    EvIsDict Model.mario true;
    EvGet Model.mario "name" (Some (Model.VStr "Mario"));
    EvIsList (Model.VStr "Mario") false;
    EvPrintf "Error: value is not a list\n" []],
   Exit LibC.EXIT_FAILURE).
Proof. reflexivity. Qed.

(** C9.  On every run of the query tool, whatever the engine answers: each
    [dent_get_index] comes after a [dent_is_list] that answered true and a
    [dent_len] on the same value, with an index below that length; each
    [dent_get] comes after a [dent_is_dict] that answered true on the same
    value; and a kind check that answers false is followed by the error
    message and [EXIT_FAILURE] only, not by a navigation call. *)
Theorem navigation_is_guarded (V : Type) (E : Cdent V) (argv : list string) :
  index_guarded (fst (QueryTool.main argv)) /\
  key_guarded (fst (QueryTool.main argv)) /\
  wrong_kind_exits (QueryTool.main argv).
Proof.
  destruct (main_cases argv) as [(argv0 & file & query & more & root & -> & Hp) | Hno].
  - destruct (main_parsed argv0 file query more root Hp) as (tr & o & -> & Hrun).
    simpl. split; [|split].
    + intros pre v i r post Heq. peel.
      destruct (loop_run_index_guarded _ _ _ _ Hrun _ _ _ _ _ eq_refl) as (? & ? & ?).
      simpl; auto.
    + intros pre v key r post Heq. peel.
      pose proof (loop_run_key_guarded _ _ _ _ Hrun _ _ _ _ _ eq_refl).
      simpl; auto.
    + intros pre v post [Heq|Heq]; simpl in Heq; peel;
        eapply (loop_run_wrong_kind _ _ _ _ Hrun); simpl; eauto.
  - destruct (main_not_parsed argv Hno) as (tr & o & -> & _ & _ & Hall).
    rewrite Forall_forall in Hall. simpl.
    split; [|split].
    + intros pre v i r post ->. destruct (Hall _ (in_elt _ _ _)).
    + intros pre v key r post ->. destruct (Hall _ (in_elt _ _ _)).
    + intros pre v post [Heq | Heq]; simpl in Heq; subst tr;
        destruct (Hall _ (in_elt _ _ _)).
Qed.

(** ** What the bracket selector makes of its text *)

Lemma digits_value_no_digit s acc :
  LibC.starts_with_digit s = false -> LibC.digits_value s acc = acc.
Proof.
  destruct s as [|c r]; simpl; [reflexivity|].
  destruct (LibC.digit_val c); [discriminate | reflexivity].
Qed.

Lemma strtoul_no_digit s :
  LibC.starts_with_digit (LibC.subject s) = false -> LibC.strtoul s = 0.
Proof.
  unfold LibC.strtoul, LibC.subject.
  destruct (LibC.strip_sign (LibC.skip_space s)) as [neg body]; simpl.
  intros H. rewrite (digits_value_no_digit _ _ H).
  destruct neg; reflexivity.
Qed.

Lemma digits_value_app ds junk : forall acc,
  LibC.all_digits ds = true -> LibC.starts_with_digit junk = false ->
  LibC.digits_value (ds ++ junk) acc = LibC.digits_value ds acc.
Proof.
  induction ds as [|c r IH]; intros acc Hd Hj; simpl in *.
  - now apply digits_value_no_digit.
  - destruct (LibC.digit_val c); [auto | discriminate].
Qed.

Lemma digit_not_space_or_sign c d :
  LibC.digit_val c = Some d ->
  LibC.isspace c = false /\ Ascii.eqb c "-" = false /\ Ascii.eqb c "+" = false.
Proof.
  unfold LibC.digit_val, LibC.isspace. cbv zeta.
  destruct (_ && _) eqn:H; [|discriminate]. intros _.
  apply andb_prop in H. destruct H as [H1 H2].
  apply Z.leb_le in H1, H2.
  repeat split.
  - apply orb_false_iff. split; [apply Z.eqb_neq; lia|].
    apply andb_false_iff. right. apply Z.leb_gt. lia.
  - apply Ascii.eqb_neq. intros ->. compute in H1. now apply H1.
  - apply Ascii.eqb_neq. intros ->. compute in H1. now apply H1.
Qed.

(** After a decimal numeral, text that does not go on with a digit is
    ignored. *)
Lemma strtoul_ignores_junk ds junk :
  LibC.decimal_numeral ds = true -> LibC.starts_with_digit junk = false ->
  LibC.strtoul (ds ++ junk) = LibC.strtoul ds.
Proof.
  intros Hd Hj. destruct ds as [|c r]; [discriminate|].
  unfold LibC.decimal_numeral in Hd.
  pose proof Hd as Hd'. simpl in Hd'.
  destruct (LibC.digit_val c) as [d|] eqn:Hc; [|discriminate].
  destruct (digit_not_space_or_sign c d Hc) as (Hs & Hm & Hp).
  unfold LibC.strtoul. simpl LibC.skip_space. rewrite Hs.
  unfold LibC.strip_sign. simpl append. rewrite Hm, Hp.
  change (String c (r ++ junk)) with (String c r ++ junk).
  now rewrite digits_value_app.
Qed.

Lemma c_str_app a b : LibC.c_str a = a -> LibC.c_str (a ++ b) = a ++ LibC.c_str b.
Proof.
  induction a as [|c r IH]; simpl; [reflexivity|].
  destruct (Ascii.eqb c LibC.NUL); [discriminate|].
  intros [= H]. now rewrite IH.
Qed.

Section BracketSelector.
Context {V : Type} {E : Cdent V}.

Lemma find_char_app c content rest :
  QueryTool.find_char c content = None ->
  QueryTool.find_char c (content ++ String c rest) = Some (String.length content).
Proof.
  induction content as [|a r IH]; simpl.
  - now rewrite Ascii.eqb_refl.
  - destruct (Ascii.eqb a c); [discriminate|].
    destruct (QueryTool.find_char c r); [discriminate|].
    intros _. now rewrite IH.
Qed.

Lemma strndup_app content rest :
  LibC.strndup (content ++ rest) (String.length content) = content.
Proof.
  unfold LibC.strndup. induction content as [|a r IH]; simpl.
  - now destruct rest.
  - now rewrite IH.
Qed.

Lemma advance_app content c rest :
  LibC.advance (S (String.length content)) (content ++ String c rest) = rest.
Proof. induction content as [|a r IH]; simpl; auto. Qed.

(** The run of the tool on a query that is one bracket selector. *)
Lemma main_bracket argv0 file content root :
  dent_parse_file file = Some root ->
  dent_is_list root = true ->
  QueryTool.find_char "]" content = None ->
  LibC.c_str content = content ->
  QueryTool.main [argv0; file; "[" ++ content ++ "]"] =
    (EvInit ;; EvParseFile file (Some root) ;;
     EvIsList root true ;; EvLen root (dent_len root) ;;
     if dent_len root <=? LibC.strtoul content
     then QueryTool.exit_failure "Error: index out of bounds\n" []
     else
       EvGetIndex root (LibC.strtoul content)
         (dent_get_index root (LibC.strtoul content)) ;;
       QueryTool.finish root (dent_get_index root (LibC.strtoul content))).
Proof.
  intros Hp Hl Hf Hc.
  unfold QueryTool.main. rewrite Hp. cbv zeta.
  change ("[" ++ content ++ "]") with (String "[" (content ++ "]")).
  assert (Hq : LibC.c_str (String "[" (content ++ "]")) = String "[" (content ++ "]")).
  { change (String "[" (content ++ "]")) with ("[" ++ (content ++ "]")) at 1.
    rewrite (c_str_app "[" _ eq_refl). simpl. now rewrite (c_str_app _ "]" Hc). }
  rewrite Hq.
  cbn [String.length QueryTool.query_loop].
  change (Ascii.eqb "[" "[") with true. cbv iota.
  rewrite Hl. cbn [negb].
  rewrite (find_char_app "]" content "" Hf).
  rewrite strndup_app, advance_app.
  destruct (String.length (content ++ "]")) eqn:Hn.
  { destruct content; discriminate. }
  reflexivity.
Qed.

(** A quoted key selector: the scan stops on the closing quote and the loop
    goes on from there, so a key that is found is followed by the error for
    an unexpected quote. *)
Lemma main_quoted_key argv0 file key more root next :
  dent_parse_file file = Some root ->
  dent_is_dict root = true ->
  dent_get root key = Some next ->
  QueryTool.find_char LibC.DQUOTE key = None ->
  LibC.c_str (key ++ String LibC.DQUOTE more) = key ++ String LibC.DQUOTE more ->
  QueryTool.main
    [argv0; file; String "." (String LibC.DQUOTE (key ++ String LibC.DQUOTE more))] =
    (EvInit ;; EvParseFile file (Some root) ;;
     EvIsDict root true ;; EvGet root key (Some next) ;;
     QueryTool.exit_failure "Error: unexpected character '%c'\n" [PChar LibC.DQUOTE]).
Proof.
  intros Hp Hd Hg Hf Hc.
  unfold QueryTool.main. rewrite Hp. cbv zeta.
  assert (Hq : LibC.c_str (String "." (String LibC.DQUOTE (key ++ String LibC.DQUOTE more)))
               = String "." (String LibC.DQUOTE (key ++ String LibC.DQUOTE more))).
  { simpl. now rewrite Hc. }
  rewrite Hq.
  cbn [String.length QueryTool.query_loop].
  change (Ascii.eqb "." "[") with false.
  change (Ascii.eqb "." " ") with false.
  change (Ascii.eqb "." ".") with true.
  change (Ascii.eqb LibC.DQUOTE LibC.DQUOTE) with true.
  cbv iota. rewrite Hd. cbn [negb].
  rewrite (find_char_app LibC.DQUOTE key more Hf).
  unfold QueryTool.select_key.
  rewrite strndup_app, Hg.
  replace (LibC.advance (String.length key) (key ++ String LibC.DQUOTE more))
    with (String LibC.DQUOTE more)
    by (clear; induction key; simpl; auto).
  reflexivity.
Qed.

End BracketSelector.

(** The selector [[1x]] on a list of two items: the run indexes it at 1. *)
Lemma two_items_selected_by_1x :
  QueryTool.main (E := Model.engine_of (Some (Model.VList [Model.VStr "a"; Model.VStr "b"])))
    ["dent"; "f"; "[1x]"] =
  let root := Model.VList [Model.VStr "a"; Model.VStr "b"] in
  ([EvInit; EvParseFile "f" (Some root); EvIsList root true; EvLen root 2;
    EvGetIndex root 1 (Some (Model.VStr "b"));
    EvToStr (Model.VStr "b") (Some "<value>"); EvPrintf "%s\n" [PStr "<value>"];
    EvFreeStr "<value>"; EvFree root; EvShutdown],
   Exit LibC.EXIT_SUCCESS).
Proof. reflexivity. Qed.

(** C10, as stated, fails: the selector [[1x]] holds no decimal numeral, and
    on a list of two items the tool selects item 1 with it, not item 0. *)
Lemma non_numeral_selects_item_one :
  ~ (forall content : string,
       LibC.decimal_numeral content = false ->
       QueryTool.find_char "]" content = None ->
       LibC.c_str content = content ->
       selects
         (QueryTool.main
            (E := Model.engine_of (Some (Model.VList [Model.VStr "a"; Model.VStr "b"])))
            ["dent"; "f"; "[" ++ content ++ "]"])
         (Model.VList [Model.VStr "a"; Model.VStr "b"]) 0).
Proof.
  intros H.
  destruct (H "1x" eq_refl eq_refl eq_refl) as [res Hin].
  change ("[" ++ "1x" ++ "]") with "[1x]" in Hin.
  rewrite two_items_selected_by_1x in Hin.
  simpl in Hin.
  repeat (destruct Hin as [Hin|Hin]; [discriminate Hin|]).
  exact Hin.
Qed.

(** C10, amended.  The text between the brackets (it holds no [']']) is given
    to [strtoul] in base 10 and the result is the index, with no check that
    the text was a numeral: the tool tests the index against [dent_len] and
    selects with it.  Text in which no digit follows the optional white
    space and sign, the empty selector included, is index 0; after a
    decimal numeral, text that does not go on with a digit is ignored. *)
Theorem bracket_selector_is_strtoul (V : Type) (E : Cdent V)
    (argv0 file content : string) (root : V) :
  dent_parse_file file = Some root ->
  dent_is_list root = true ->
  QueryTool.find_char "]" content = None ->
  LibC.c_str content = content ->
  QueryTool.main [argv0; file; "[" ++ content ++ "]"] =
    (EvInit ;; EvParseFile file (Some root) ;;
     EvIsList root true ;; EvLen root (dent_len root) ;;
     if dent_len root <=? LibC.strtoul content
     then QueryTool.exit_failure "Error: index out of bounds\n" []
     else
       EvGetIndex root (LibC.strtoul content)
         (dent_get_index root (LibC.strtoul content)) ;;
       QueryTool.finish root (dent_get_index root (LibC.strtoul content))) /\
  (LibC.starts_with_digit (LibC.subject content) = false ->
     LibC.strtoul content = 0 /\
     (0 < dent_len root ->
      selects (QueryTool.main [argv0; file; "[" ++ content ++ "]"]) root 0)) /\
  (forall ds junk,
     content = ds ++ junk ->
     LibC.decimal_numeral ds = true ->
     LibC.starts_with_digit junk = false ->
     LibC.strtoul content = LibC.strtoul ds).
Proof.
  intros Hp Hl Hf Hc.
  pose proof (main_bracket argv0 file content root Hp Hl Hf Hc) as Hrun.
  split; [exact Hrun|]. split.
  - intros Hnd. pose proof (strtoul_no_digit content Hnd) as H0.
    split; [exact H0|]. intros Hlen.
    rewrite Hrun, H0.
    destruct (dent_len root <=? 0) eqn:Hb; [apply Z.leb_le in Hb; lia|].
    exists (dent_get_index root 0). simpl. do 4 right. now left.
  - intros ds junk -> Hd Hj. now apply strtoul_ignores_junk.
Qed.

(** C10, amended, at work: the empty selector on a list of two items is
    index 0 and selects the first item, and [12ab] is read as [12]. *)
Lemma bracket_selector_is_strtoul_witness :
  let root := Model.VList [Model.VStr "a"; Model.VStr "b"] in
  let E := Model.engine_of (Some root) in
  QueryTool.main (E := E) ["dent"; "f"; "[]"] =
    ([EvInit; EvParseFile "f" (Some root); EvIsList root true; EvLen root 2;
      EvGetIndex root 0 (Some (Model.VStr "a"));
      EvToStr (Model.VStr "a") (Some "<value>"); EvPrintf "%s\n" [PStr "<value>"];
      EvFreeStr "<value>"; EvFree root; EvShutdown],
     Exit LibC.EXIT_SUCCESS) /\
  LibC.strtoul "" = 0 /\
  selects (QueryTool.main (E := E) ["dent"; "f"; "[]"]) root 0 /\
  LibC.strtoul "12ab" = LibC.strtoul "12".
Proof.
  intros root E.
  pose proof (bracket_selector_is_strtoul _ E "dent" "f" "" root
                eq_refl eq_refl eq_refl eq_refl) as (Hrun & Hzero & _).
  pose proof (bracket_selector_is_strtoul _ E "dent" "f" "12ab" root
                eq_refl eq_refl eq_refl eq_refl) as (_ & _ & Hjunk).
  destruct (Hzero eq_refl) as (H0 & Hsel).
  split; [exact Hrun|]. split; [exact H0|]. split.
  - apply Hsel. reflexivity.
  - exact (Hjunk "12" "ab" eq_refl eq_refl eq_refl).
Defined.

(** ** What the host programs release *)

Section Release.
Context {V : Type} {E : Cdent V}.

Lemma query_tool_releases argv : releases_on_success (QueryTool.main argv).
Proof.
  destruct (main_cases argv) as [(argv0 & file & query & more & root & -> & Hp) | Hno].
  - destruct (main_parsed argv0 file query more root Hp) as (tr & o & -> & Hrun).
    destruct (loop_run_releases _ _ _ _ Hrun) as (Hh & Hs & Hok & Hko & _).
    unfold releases_on_success; simpl. rewrite Hh.
    split; [exact Hs|]. split; [|exact Hko].
    intros Ho. exists root. rewrite (Hok Ho). auto.
  - destruct (main_not_parsed argv Hno) as (tr & o & -> & Ho & _ & Hall).
    unfold releases_on_success; simpl.
    assert (released_strings tr = [] /\ obtained_strings tr = [] /\
            released_handles tr = []) as (-> & -> & ->).
    { clear Ho Hno. induction Hall as [|e tr He _ IH]; [auto|].
      destruct IH as (IH1 & IH2 & IH3).
      destruct e as [| | | ? [?|] | | | | | | | | | | | | |]; try destruct He;
        simpl; auto. }
    split; [reflexivity|]. split; [intros; contradiction | reflexivity].
Qed.

Lemma simple_releases : releases_on_success Simple.main.
Proof.
  unfold Simple.main, releases_on_success.
  destruct (dent_parse Simple.dent_data) as [root|]; simpl.
  2:{ repeat split; try discriminate; auto. }
  destruct (dent_get root "name") as [nm|]; simpl.
  2:{ repeat split; try discriminate; auto. }
  destruct (dent_is_str nm); simpl.
  2:{ repeat split; try discriminate; auto. }
  destruct (dent_as_str nm) as [str|]; simpl.
  - repeat split; try congruence. intros _. eauto.
  - repeat split; try discriminate; auto.
Qed.

Lemma sum_loop_releases (value : V) fuel : forall i sum,
  (Z.to_nat (dent_len value - i) < fuel)%nat ->
  loop_releases value
    (fst (Functions.sum_loop fuel value i sum))
    (snd (Functions.sum_loop fuel value i sum)).
Proof.
  unfold loop_releases.
  induction fuel as [|fuel IH]; intros i sum Hfuel; [lia|].
  simpl. destruct (i <? dent_len value) eqn:Hi; simpl.
  2:{ repeat split; try congruence. }
  apply Z.ltb_lt in Hi.
  unfold Functions.as_int_at.
  destruct (dent_get_index value i) as [x|]; simpl.
  2:{ repeat split; try discriminate; auto. }
  destruct (dent_is_int x); simpl.
  2:{ repeat split; try discriminate; auto. }
  destruct (_ || _); simpl.
  { repeat split; try discriminate; auto. }
  apply IH. lia.
Qed.

Lemma functions_releases : releases_on_success Functions.main.
Proof.
  unfold Functions.main, releases_on_success.
  destruct (dent_parse Functions.dent_data) as [root|].
  2:{ simpl. repeat split; try discriminate; auto. }
  destruct (dent_is_list root).
  2:{ simpl. repeat split; try discriminate; auto. }
  destruct (sum_loop_releases root (S (Z.to_nat (dent_len root))) 0 0)
    as (Hh & Hs & Hok & Hko & _).
  { rewrite Z.sub_0_r. lia. }
  cbn [negb].
  remember (Functions.sum_loop _ root 0 0) as r eqn:Hr. clear Hr.
  simpl. rewrite Hh. split; [exact Hs|]. split; [|exact Hko].
  intros Ho. exists root. rewrite (Hok Ho). auto.
Qed.

End Release.

(** The run of the query tool on the README's record, asked for an item as
    if it were a list: the handle is obtained and the process exits without
    [dent_free]. *)
Lemma index_of_a_record :
  QueryTool.main (E := Model.engine_of (Some Model.mario))
    ["dent"; "examples/dent/dict.dent"; "[0]"] =
  ([EvInit; EvParseFile "examples/dent/dict.dent" (Some Model.mario);
    EvIsList Model.mario false;
    EvPrintf "Error: value is not a list\n" []],
   Exit LibC.EXIT_FAILURE).
Proof. reflexivity. Qed.

(** C8, as stated, fails: the query tool, given a file that parses and an
    index selector on a value that is not a list, exits with the handle
    obtained and not released. *)
Lemma query_tool_exits_without_release :
  ~ releases_everything
      (QueryTool.main (E := Model.engine_of (Some Model.mario))
         ["dent"; "examples/dent/dict.dent"; "[0]"]).
Proof.
  rewrite index_of_a_record. intros H.
  destruct (H LibC.EXIT_FAILURE eq_refl) as [Hh _].
  discriminate Hh.
Qed.

(** C8, amended.  In the query tool and in both example programs, whatever
    the engine answers: every string obtained from [dent_as_str] or
    [dent_to_str] is released once; a run that exits with [EXIT_SUCCESS] has
    obtained one handle and released it once; a run that ends otherwise has
    called [dent_free] on nothing. *)
Theorem hosts_release_on_success (V : Type) (E : Cdent V) (argv : list string) :
  releases_on_success (QueryTool.main argv) /\
  releases_on_success Simple.main /\
  releases_on_success Functions.main.
Proof.
  split; [apply query_tool_releases|].
  split; [apply simple_releases | apply functions_releases].
Qed.

(** ** Extraction from the value tree *)

Section Accessors.
Import Model.




Lemma as_int_in_range (f : sentinels) (v : value) :
  sentinels_ok f -> representable v -> int64 (as_int f v).
Proof.
  intros (Hi & _) Hv. destruct v; simpl; assumption.
Qed.

Lemma as_float_in_range (f : sentinels) (v : value) :
  sentinels_ok f -> representable v -> uint64 (as_float f v).
Proof.
  intros (_ & Hf & _) Hv. destruct v; simpl; assumption.
Qed.


End Accessors.


(** The functions the statement above rules out are not ruled out by its
    other conditions: the extractions of the model return every payload and
    stay within [int64_t] and [double]. *)
Lemma extraction_conditions_are_met (f : Model.sentinels) :
  Model.sentinels_ok f ->
  (forall b, Model.as_bool f (Model.VBool b) = b) /\
  ((forall v, Model.representable v -> Model.int64 (Model.as_int f v)) /\
   (forall n, Model.int64 n -> Model.as_int f (Model.VInt n) = n)) /\
  ((forall v, Model.representable v -> Model.uint64 (Model.as_float f v)) /\
   (forall bits, Model.uint64 bits -> Model.as_float f (Model.VFloat bits) = bits)).
Proof.
  intros Hok. repeat split; try reflexivity.
  - now apply as_int_in_range.
  - now apply as_int_in_range.
  - now apply as_float_in_range.
  - now apply as_float_in_range.
Qed.



(** * Beyond the guards: what the programs compute *)

(** ** Fuel *)

Section Fuel.
Context {V : Type} {E : Cdent V}.

(** Two amounts of fuel above the length of the query give the same run. *)
Lemma query_loop_fuel (value : V) f1 : forall f2 current q,
  (String.length q < f1)%nat -> (String.length q < f2)%nat ->
  QueryTool.query_loop f1 value current q = QueryTool.query_loop f2 value current q.
Proof.
  induction f1 as [|f1 IH]; intros f2 current q H1 H2; [lia|].
  destruct f2 as [|f2]; [lia|].
  destruct q as [|c rest]; [reflexivity|].
  simpl in H1, H2. simpl.
  destruct (Ascii.eqb c "[").
  { destruct current as [cur|]; [|reflexivity].
    destruct (dent_is_list cur); simpl; [|reflexivity].
    destruct (QueryTool.find_char "]" rest) as [n|]; [|reflexivity].
    destruct (dent_len cur <=? _); [reflexivity|].
    pose proof (advance_length (S n) rest) as Ha. simpl in Ha.
    rewrite (IH f2); [reflexivity | lia | lia]. }
  destruct (Ascii.eqb c " ").
  { apply IH; lia. }
  destruct (Ascii.eqb c "."); [|reflexivity].
  destruct current as [cur|]; [|reflexivity].
  destruct (dent_is_dict cur); simpl; [|reflexivity].
  destruct rest as [|c' rest']; [reflexivity|].
  simpl in H1, H2.
  destruct (Ascii.eqb c' LibC.DQUOTE).
  - destruct (QueryTool.find_char LibC.DQUOTE rest') as [len|]; [|reflexivity].
    unfold QueryTool.select_key.
    destruct (dent_get cur _); [|reflexivity].
    pose proof (advance_length len rest').
    rewrite (IH f2); [reflexivity | lia | lia].
  - unfold QueryTool.select_key.
    destruct (dent_get cur _); [|reflexivity].
    pose proof (advance_length (QueryTool.key_len (String c' rest')) (String c' rest')) as Ha.
    rewrite (IH f2); [reflexivity | simpl in *; lia | simpl in *; lia].
Qed.

Lemma run_query_fuel (value : V) f current q :
  (String.length q < f)%nat ->
  QueryTool.query_loop f value current q = Paths.run_query value current q.
Proof. intros H. apply query_loop_fuel; [exact H | lia]. Qed.

End Fuel.

(** ** Strings of selectors *)

Lemma string_app_assoc (a b c : string) : (a ++ b) ++ c = a ++ (b ++ c).
Proof. induction a as [|x a IH]; simpl; [reflexivity | now rewrite IH]. Qed.

Lemma string_app_length (a b : string) :
  String.length (a ++ b) = (String.length a + String.length b)%nat.
Proof. induction a as [|x a IH]; simpl; [reflexivity | now rewrite IH]. Qed.

Lemma string_app_empty (a : string) : a ++ "" = a.
Proof. induction a as [|x a IH]; simpl; [reflexivity | now rewrite IH]. Qed.

Lemma all_chars_impl (ok ok' : ascii -> bool) s :
  (forall c, ok c = true -> ok' c = true) ->
  Paths.all_chars ok s = true -> Paths.all_chars ok' s = true.
Proof.
  intros Himp. induction s as [|c r IH]; simpl; [reflexivity|].
  intros H. apply andb_prop in H. destruct H as [Hc Hr].
  now rewrite (Himp c Hc), IH.
Qed.

Lemma c_str_all_chars s :
  Paths.all_chars (fun c => negb (Ascii.eqb c LibC.NUL)) s = true -> LibC.c_str s = s.
Proof.
  induction s as [|c r IH]; simpl; [reflexivity|].
  intros H. apply andb_prop in H. destruct H as [Hc Hr].
  apply negb_true_iff in Hc. rewrite Hc. now rewrite IH.
Qed.

Lemma key_char_not_nul c : Paths.key_char c = true -> negb (Ascii.eqb c LibC.NUL) = true.
Proof. unfold Paths.key_char. intros H. now apply andb_prop in H. Qed.

Lemma index_char_not_nul c : Paths.index_char c = true -> negb (Ascii.eqb c LibC.NUL) = true.
Proof. unfold Paths.index_char. intros H. now apply andb_prop in H. Qed.

Lemma bare_key_chars key : Paths.bare_key key = true -> Paths.all_chars Paths.key_char key = true.
Proof.
  destruct key as [|c r]; [discriminate|].
  unfold Paths.bare_key. intros H. now apply andb_prop in H.
Qed.

Lemma c_str_selector s :
  Paths.well_formed s = true -> LibC.c_str (Paths.render_selector s) = Paths.render_selector s.
Proof.
  destruct s as [key|text]; simpl; intros H.
  - f_equal. apply c_str_all_chars.
    apply (all_chars_impl _ _ _ key_char_not_nul), bare_key_chars, H.
  - f_equal. rewrite (c_str_app text "]"); [reflexivity|].
    apply c_str_all_chars. apply (all_chars_impl _ _ _ index_char_not_nul), H.
Qed.

Lemma c_str_render path rest :
  forallb Paths.well_formed path = true ->
  LibC.c_str (Paths.render path ++ rest) = Paths.render path ++ LibC.c_str rest.
Proof.
  induction path as [|s path IH]; simpl; [reflexivity|].
  intros H. apply andb_prop in H. destruct H as [Hs Hp].
  rewrite !string_app_assoc, (c_str_app _ _ (c_str_selector s Hs)).
  now rewrite IH.
Qed.

Lemma find_char_index_text text :
  Paths.all_chars Paths.index_char text = true -> QueryTool.find_char "]" text = None.
Proof.
  induction text as [|c r IH]; simpl; [reflexivity|].
  intros H. apply andb_prop in H. destruct H as [Hc Hr].
  unfold Paths.index_char in Hc. apply andb_prop in Hc. destruct Hc as [Hc _].
  apply negb_true_iff in Hc. rewrite Hc. now rewrite IH.
Qed.

Lemma key_len_app key rest :
  Paths.all_chars Paths.key_char key = true -> Paths.delimited rest = true ->
  QueryTool.key_len (key ++ rest) = String.length key.
Proof.
  intros Hk Hr. induction key as [|c r IH]; simpl.
  - destruct rest as [|c r]; [reflexivity|]. simpl in *. now rewrite Hr.
  - simpl in Hk. apply andb_prop in Hk. destruct Hk as [Hc Hk].
    unfold Paths.key_char in Hc. apply andb_prop in Hc. destruct Hc as [Hc _].
    apply negb_true_iff in Hc. rewrite Hc. now rewrite IH.
Qed.

Lemma advance_exact key rest : LibC.advance (String.length key) (key ++ rest) = rest.
Proof.
  induction key as [|c r IH]; simpl; [now destruct rest | exact IH].
Qed.

Lemma delimited_render path rest :
  Paths.delimited rest = true -> Paths.delimited (Paths.render path ++ rest) = true.
Proof. destruct path as [|[key|text] path]; simpl; auto. Qed.

(** ** The loop, one selector at a time *)

Section Selectors.
Context {V : Type} {E : Cdent V}.

Lemma run_query_end (value : V) current :
  Paths.run_query value current "" = QueryTool.finish value current.
Proof. reflexivity. Qed.

Lemma run_query_space (value : V) current q :
  Paths.run_query value current (String " " q) = Paths.run_query value current q.
Proof.
  unfold Paths.run_query. cbn [String.length QueryTool.query_loop].
  change (Ascii.eqb " " "[") with false. change (Ascii.eqb " " " ") with true.
  reflexivity.
Qed.

Lemma run_query_spaces (value : V) current n q :
  Paths.run_query value current (Paths.spaces n ++ q) = Paths.run_query value current q.
Proof.
  induction n as [|n IH]; simpl; [reflexivity|]. now rewrite run_query_space.
Qed.

Lemma run_query_null (value : V) s rest :
  Paths.run_query value None (Paths.render_selector s ++ rest) = halt Undefined.
Proof. destruct s; reflexivity. Qed.

Lemma run_query_key (value cur : V) key rest :
  Paths.bare_key key = true -> Paths.delimited rest = true ->
  Paths.run_query value (Some cur) (String "." (key ++ rest)) =
    (EvIsDict cur (dent_is_dict cur) ;;
     if negb (dent_is_dict cur)
     then QueryTool.exit_failure "Error: value is not a dict\n" []
     else
       EvGet cur key (dent_get cur key) ;;
       match dent_get cur key with
       | None => QueryTool.exit_failure "Error: key not found\n" []
       | Some _ => Paths.run_query value (dent_get cur key) rest
       end).
Proof.
  intros Hk Hr. pose proof (bare_key_chars key Hk) as Hc.
  unfold Paths.run_query at 1.
  change (S (String.length (String "." (key ++ rest))))
    with (S (S (String.length (key ++ rest)))).
  assert (Hf : (String.length rest < S (String.length (key ++ rest)))%nat)
    by (rewrite string_app_length; lia).
  revert Hf. generalize (S (String.length (key ++ rest))). intros f Hf.
  cbn [QueryTool.query_loop].
  change (Ascii.eqb "." "[") with false. change (Ascii.eqb "." " ") with false.
  change (Ascii.eqb "." ".") with true. cbv iota zeta.
  destruct (dent_is_dict cur); cbn [negb]; [|reflexivity].
  destruct key as [|c key']; [discriminate|].
  change (String c key' ++ rest) with (String c (key' ++ rest)). cbv iota.
  unfold Paths.bare_key in Hk. apply andb_prop in Hk. destruct Hk as [Hq _].
  apply negb_true_iff in Hq. rewrite Hq.
  change (String c (key' ++ rest)) with (String c key' ++ rest).
  rewrite (key_len_app _ _ Hc Hr), strndup_app, advance_exact.
  unfold QueryTool.select_key.
  destruct (dent_get cur (String c key')); [|reflexivity].
  now rewrite (run_query_fuel value f _ rest Hf).
Qed.

Lemma run_query_index (value cur : V) text rest :
  Paths.all_chars Paths.index_char text = true ->
  Paths.run_query value (Some cur) (String "[" (text ++ String "]" rest)) =
    (EvIsList cur (dent_is_list cur) ;;
     if negb (dent_is_list cur)
     then QueryTool.exit_failure "Error: value is not a list\n" []
     else
       EvLen cur (dent_len cur) ;;
       if dent_len cur <=? LibC.strtoul text
       then QueryTool.exit_failure "Error: index out of bounds\n" []
       else
         EvGetIndex cur (LibC.strtoul text) (dent_get_index cur (LibC.strtoul text)) ;;
         Paths.run_query value (dent_get_index cur (LibC.strtoul text)) rest).
Proof.
  intros Ht.
  unfold Paths.run_query at 1.
  assert (Hf : (String.length rest < String.length (String "[" (text ++ String "]" rest)))%nat)
    by (simpl; rewrite string_app_length; simpl; lia).
  revert Hf. generalize (String.length (String "[" (text ++ String "]" rest))).
  intros f Hf.
  cbn [QueryTool.query_loop].
  change (Ascii.eqb "[" "[") with true. cbv iota zeta.
  destruct (dent_is_list cur); cbn [negb]; [|reflexivity].
  rewrite (find_char_app "]" text rest (find_char_index_text text Ht)).
  rewrite strndup_app, advance_app.
  destruct (dent_len cur <=? LibC.strtoul text); [reflexivity|].
  now rewrite (run_query_fuel value f _ rest Hf).
Qed.

(** The loop on a path followed by [rest] is the walk along the path, then
    the loop on [rest]. *)
Lemma run_query_walk (value : V) rest path : forall current,
  forallb Paths.well_formed path = true -> Paths.delimited rest = true ->
  Paths.run_query value current (Paths.render path ++ rest) =
    Paths.walk (fun c => Paths.run_query value c rest) current path.
Proof.
  induction path as [|s path IH]; intros current Hwf Hr; [reflexivity|].
  simpl in Hwf. apply andb_prop in Hwf. destruct Hwf as [Hs Hp].
  cbn [Paths.render Paths.walk]. rewrite string_app_assoc.
  destruct current as [cur|]; [|apply run_query_null].
  destruct s as [key|text]; cbn [Paths.render_selector].
  - change (String "." key ++ Paths.render path ++ rest)
      with (String "." (key ++ (Paths.render path ++ rest))).
    rewrite (run_query_key value cur key _ Hs (delimited_render path rest Hr)).
    now rewrite IH.
  - change (String "[" (text ++ "]") ++ Paths.render path ++ rest)
      with (String "[" ((text ++ "]") ++ (Paths.render path ++ rest))).
    rewrite string_app_assoc.
    change ("]" ++ Paths.render path ++ rest)
      with (String "]" (Paths.render path ++ rest)).
    rewrite (run_query_index value cur text _ Hs).
    now rewrite IH.
Qed.

(** [main] on a query that opens with a path. *)
Lemma main_walk argv0 file path rest root :
  dent_parse_file file = Some root ->
  forallb Paths.well_formed path = true -> Paths.delimited rest = true ->
  QueryTool.main [argv0; file; Paths.render path ++ rest] =
    (EvInit ;; EvParseFile file (Some root) ;;
     Paths.walk (fun c => Paths.run_query root c (LibC.c_str rest)) (Some root) path).
Proof.
  intros Hp Hwf Hr.
  unfold QueryTool.main. rewrite Hp. cbv zeta.
  rewrite (c_str_render path rest Hwf).
  change (QueryTool.query_loop _ root (Some root) (Paths.render path ++ LibC.c_str rest))
    with (Paths.run_query root (Some root) (Paths.render path ++ LibC.c_str rest)).
  rewrite run_query_walk; auto.
  destruct rest as [|c r]; [reflexivity|]. simpl in *.
  destruct (Ascii.eqb c LibC.NUL); [reflexivity | exact Hr].
Qed.

End Selectors.

(** ** Where a path leads *)

Section Navigation.
Context {V : Type} {E : Cdent V}.

Lemma printed_navigation (checks tr : list (event V)) :
  Forall is_navigation checks -> printed (checks ++ tr) = printed tr.
Proof.
  induction 1 as [|e checks He _ IH]; [reflexivity|].
  simpl. rewrite <- IH.
  destruct e as [| | | | | ? ? [?|] | | | | ? [|] | ? [|] | | | | | |];
    try destruct He; reflexivity.
Qed.

(** Along a path that resolves, the walk only checks and navigates, and goes
    on from the value the path leads to. *)
Lemma walk_resolved (after : option V -> run V) path more : forall cur target,
  Paths.resolve cur path = Some target ->
  exists checks,
    Forall is_navigation checks /\
    Paths.walk after (Some cur) (path ++ more) =
      ((checks ++ fst (Paths.walk after (Some target) more))%list,
       snd (Paths.walk after (Some target) more)).
Proof.
  induction path as [|s path IH]; intros cur target Hres.
  - injection Hres as <-. exists []. split; [constructor|].
    simpl. now destruct (Paths.walk after (Some cur) more).
  - simpl in Hres. destruct (Paths.step cur s) as [next|] eqn:Hstep; [|discriminate].
    destruct (IH next target Hres) as (checks & Hchecks & Hwalk).
    destruct s as [key|text]; simpl in Hstep; cbn [app Paths.walk].
    + destruct (dent_is_dict cur) eqn:Hd; [|discriminate].
      rewrite Hstep. cbn [negb]. rewrite Hwalk.
      exists (EvIsDict cur true :: EvGet cur key (Some next) :: checks).
      split; [repeat constructor; assumption | reflexivity].
    + destruct (dent_is_list cur) eqn:Hl; [|discriminate].
      destruct (LibC.strtoul text <? dent_len cur) eqn:Hb; [|discriminate].
      simpl in Hstep. apply Z.ltb_lt in Hb.
      destruct (dent_len cur <=? LibC.strtoul text) eqn:Hb'; [apply Z.leb_le in Hb'; lia|].
      rewrite Hstep. cbn [negb]. rewrite Hwalk.
      exists (EvIsList cur true :: EvLen cur (dent_len cur)
                :: EvGetIndex cur (LibC.strtoul text) (Some next) :: checks).
      split; [repeat constructor; assumption | reflexivity].
Qed.

Lemma finish_printed (value target : V) str :
  dent_to_str target = Some str ->
  QueryTool.finish value (Some target) =
    ([EvToStr target (Some str); EvPrintf "%s\n" [PStr str]; EvFreeStr str;
      EvFree value; EvShutdown], Exit LibC.EXIT_SUCCESS).
Proof. intros H. unfold QueryTool.finish. now rewrite H. Qed.

(** The run of [main] on a path that resolves, then [rest]. *)
Lemma main_resolved argv0 file path rest root target :
  dent_parse_file file = Some root ->
  forallb Paths.well_formed path = true -> Paths.delimited rest = true ->
  Paths.resolve root path = Some target ->
  exists checks,
    Forall is_navigation checks /\
    QueryTool.main [argv0; file; Paths.render path ++ rest] =
      ((EvInit :: EvParseFile file (Some root) :: checks
          ++ fst (Paths.run_query root (Some target) (LibC.c_str rest)))%list,
       snd (Paths.run_query root (Some target) (LibC.c_str rest))).
Proof.
  intros Hp Hwf Hr Hres.
  rewrite (main_walk argv0 file path rest root Hp Hwf Hr).
  destruct (walk_resolved (fun c => Paths.run_query root c (LibC.c_str rest)) path []
              root target Hres) as (checks & Hchecks & Hwalk).
  rewrite app_nil_r in Hwalk. rewrite Hwalk.
  exists checks. split; [exact Hchecks | reflexivity].
Qed.

Lemma printed_main (file : string) (root : V) checks tr :
  Forall is_navigation checks ->
  printed (EvInit :: EvParseFile file (Some root) :: checks ++ tr) = printed tr.
Proof. intros H. simpl. fold (printed (checks ++ tr)). now apply printed_navigation. Qed.

End Navigation.

(** X1.  On a query that is a path of bare keys and bracket selectors, when
    the file parses and the path resolves through the engine (each key in a
    dictionary that holds it, each index in a list and below its length) to
    a value the engine serializes, the query tool writes that
    serialization, and nothing else, and exits with [EXIT_SUCCESS]. *)
Theorem path_prints_its_value (V : Type) (E : Cdent V)
    (argv0 file : string) (path : list Paths.selector) (root target : V) (str : string) :
  dent_parse_file file = Some root ->
  forallb Paths.well_formed path = true ->
  Paths.resolve root path = Some target ->
  dent_to_str target = Some str ->
  snd (QueryTool.main [argv0; file; Paths.render path]) = Exit LibC.EXIT_SUCCESS /\
  printed (fst (QueryTool.main [argv0; file; Paths.render path])) = [("%s\n", [PStr str])] /\
  In (EvToStr target (Some str)) (fst (QueryTool.main [argv0; file; Paths.render path])).
Proof.
  intros Hp Hwf Hres Hstr.
  rewrite <- (string_app_empty (Paths.render path)).
  destruct (main_resolved argv0 file path "" root target Hp Hwf eq_refl Hres)
    as (checks & Hchecks & ->).
  cbn [LibC.c_str]. rewrite run_query_end, (finish_printed root target str Hstr).
  cbn [fst snd]. split; [reflexivity|]. split.
  - now rewrite (printed_main file root checks _ Hchecks).
  - right. right. apply in_or_app. right. now left.
Qed.

Section Failures.
Context {V : Type} {E : Cdent V}.

Lemma walk_unresolved (after : option V -> run V) path :
  Paths.finds_items ->
  forall cur, Paths.resolve cur path = None ->
    snd (Paths.walk after (Some cur) path) = Exit LibC.EXIT_FAILURE /\
    Forall (fun e => ~ serializes_or_releases e) (fst (Paths.walk after (Some cur) path)).
Proof.
  intros Hfinds. induction path as [|s path IH]; intros cur Hres; [discriminate|].
  simpl in Hres. cbn [Paths.walk].
  destruct s as [key|text]; simpl in Hres.
  - destruct (dent_is_dict cur); cbn [negb].
    2:{ split; [reflexivity | repeat constructor; simpl; tauto]. }
    destruct (dent_get cur key) as [next|].
    + destruct (IH next Hres) as [Ho Htr].
      split; [exact Ho | repeat constructor; simpl; tauto || exact Htr].
    + split; [reflexivity | repeat constructor; simpl; tauto].
  - destruct (dent_is_list cur) eqn:Hl; cbn [negb andb] in *.
    2:{ split; [reflexivity | repeat constructor; simpl; tauto]. }
    destruct (LibC.strtoul text <? dent_len cur) eqn:Hb.
    + apply Z.ltb_lt in Hb.
      destruct (dent_len cur <=? LibC.strtoul text) eqn:Hb'; [apply Z.leb_le in Hb'; lia|].
      pose proof (strtoul_range text) as Hrange.
      destruct (dent_get_index cur (LibC.strtoul text)) as [next|] eqn:Hi.
      * destruct (IH next Hres) as [Ho Htr].
        split; [exact Ho | repeat constructor; simpl; tauto || exact Htr].
      * exfalso. apply (Hfinds cur (LibC.strtoul text) Hl); [lia | exact Hi].
    + apply Z.ltb_ge in Hb.
      destruct (dent_len cur <=? LibC.strtoul text) eqn:Hb'; [|apply Z.leb_gt in Hb'; lia].
      split; [reflexivity | repeat constructor; simpl; tauto].
Qed.

End Failures.

(** X2.  With an engine that finds an item at every index below the length
    of a list: on a query that is a path of bare keys and bracket selectors,
    when the file parses and the path does not resolve through the engine,
    the query tool yields no value.  It exits with [EXIT_FAILURE], and it
    calls neither [dent_to_str] nor a release. *)
Theorem unresolved_path_yields_nothing (V : Type) (E : Cdent V)
    (argv0 file : string) (path : list Paths.selector) (root : V) :
  Paths.finds_items ->
  dent_parse_file file = Some root ->
  forallb Paths.well_formed path = true ->
  Paths.resolve root path = None ->
  snd (QueryTool.main [argv0; file; Paths.render path]) = Exit LibC.EXIT_FAILURE /\
  quiet (QueryTool.main [argv0; file; Paths.render path]).
Proof.
  intros Hfinds Hp Hwf Hres.
  rewrite <- (string_app_empty (Paths.render path)).
  rewrite (main_walk argv0 file path "" root Hp Hwf eq_refl).
  destruct (walk_unresolved (fun c => Paths.run_query root c (LibC.c_str "")) path
              Hfinds root Hres) as [Ho Htr].
  cbn [snd emit]. split; [exact Ho|].
  split; [cbn [snd emit]; rewrite Ho; discriminate|].
  cbn [fst emit]. repeat constructor; simpl; tauto || exact Htr.
Qed.

(** The run of [main] when the path resolves up to a selector that fails. *)
Lemma main_complaint (V : Type) (E : Cdent V)
    (argv0 file : string) (before later : list Paths.selector) (s : Paths.selector)
    (root cur : V) (msg : string) :
  dent_parse_file file = Some root ->
  forallb Paths.well_formed (before ++ s :: later) = true ->
  Paths.resolve root before = Some cur ->
  Paths.complaint cur s = Some msg ->
  snd (QueryTool.main [argv0; file; Paths.render (before ++ s :: later)])
    = Exit LibC.EXIT_FAILURE /\
  printed (fst (QueryTool.main [argv0; file; Paths.render (before ++ s :: later)]))
    = [(msg, [])].
Proof.
  intros Hp Hwf Hres Hmsg.
  rewrite <- (string_app_empty (Paths.render _)).
  rewrite (main_walk argv0 file _ "" root Hp Hwf eq_refl).
  destruct (walk_resolved (fun c => Paths.run_query root c (LibC.c_str "")) before
              (s :: later) root cur Hres) as (checks & Hchecks & ->).
  cbn [fst snd emit]. rewrite (printed_main file root checks _ Hchecks).
  cbn [Paths.walk].
  destruct s as [key|text]; simpl in Hmsg.
  - destruct (dent_is_dict cur); cbn [negb] in *.
    + destruct (dent_get cur key); [discriminate|].
      injection Hmsg as <-. split; reflexivity.
    + injection Hmsg as <-. split; reflexivity.
  - destruct (dent_is_list cur); cbn [negb] in *.
    + destruct (dent_len cur <=? LibC.strtoul text); [|discriminate].
      injection Hmsg as <-. split; reflexivity.
    + injection Hmsg as <-. split; reflexivity.
Qed.

(** X3.  When the path resolves up to a selector that fails on the value
    reached (a key on a value that is not a dictionary, a key the dictionary
    does not hold, an index on a value that is not a list, an index not
    below the length), the query tool writes the one message of that
    failure, whatever selectors follow, and exits with [EXIT_FAILURE]. *)
Theorem first_failure_is_reported (V : Type) (E : Cdent V)
    (argv0 file : string) (before later : list Paths.selector) (s : Paths.selector)
    (root cur : V) (msg : string) :
  dent_parse_file file = Some root ->
  forallb Paths.well_formed (before ++ s :: later) = true ->
  Paths.resolve root before = Some cur ->
  Paths.complaint cur s = Some msg ->
  snd (QueryTool.main [argv0; file; Paths.render (before ++ s :: later)])
    = Exit LibC.EXIT_FAILURE /\
  printed (fst (QueryTool.main [argv0; file; Paths.render (before ++ s :: later)]))
    = [(msg, [])].
Proof. apply main_complaint. Qed.

(** ** What may end a query *)

Section Endings.
Context {V : Type} {E : Cdent V}.

Lemma run_query_dot (value cur : V) :
  Paths.run_query value (Some cur) "." =
    (EvIsDict cur (dent_is_dict cur) ;;
     if negb (dent_is_dict cur)
     then QueryTool.exit_failure "Error: value is not a dict\n" []
     else QueryTool.finish value (Some cur)).
Proof. reflexivity. Qed.

Lemma run_query_quote (value : V) current more :
  Paths.run_query value current (String LibC.DQUOTE more) =
    QueryTool.exit_failure "Error: unexpected character '%c'\n" [PChar LibC.DQUOTE].
Proof. reflexivity. Qed.

Lemma run_query_quoted_key (value cur next : V) key more :
  dent_is_dict cur = true ->
  dent_get cur key = Some next ->
  QueryTool.find_char LibC.DQUOTE key = None ->
  Paths.run_query value (Some cur)
    (String "." (String LibC.DQUOTE (key ++ String LibC.DQUOTE more))) =
    (EvIsDict cur true ;; EvGet cur key (Some next) ;;
     QueryTool.exit_failure "Error: unexpected character '%c'\n" [PChar LibC.DQUOTE]).
Proof.
  intros Hd Hg Hf.
  unfold Paths.run_query at 1.
  assert (Hfuel : (String.length (String LibC.DQUOTE more) <
                   String.length (String "." (String LibC.DQUOTE
                                   (key ++ String LibC.DQUOTE more))))%nat)
    by (simpl; rewrite string_app_length; simpl; lia).
  revert Hfuel.
  generalize (String.length (String "." (String LibC.DQUOTE (key ++ String LibC.DQUOTE more)))).
  intros f Hfuel.
  cbn [QueryTool.query_loop].
  change (Ascii.eqb "." "[") with false. change (Ascii.eqb "." " ") with false.
  change (Ascii.eqb "." ".") with true.
  change (Ascii.eqb LibC.DQUOTE LibC.DQUOTE) with true.
  cbv iota zeta. rewrite Hd. cbn [negb].
  rewrite (find_char_app LibC.DQUOTE key more Hf).
  unfold QueryTool.select_key.
  rewrite strndup_app, Hg, advance_exact.
  now rewrite (run_query_fuel value f _ _ Hfuel), run_query_quote.
Qed.

Lemma walk_ext (after after' : option V -> run V) path :
  (forall c, after c = after' c) ->
  forall current, Paths.walk after current path = Paths.walk after' current path.
Proof.
  intros Hext. induction path as [|s path IH]; intros current; simpl; [apply Hext|].
  destruct current as [cur|]; [|reflexivity].
  destruct s as [key|text]; now rewrite IH.
Qed.

Lemma c_str_spaces n rest : LibC.c_str (Paths.spaces n ++ rest) = Paths.spaces n ++ LibC.c_str rest.
Proof. induction n as [|n IH]; simpl; [reflexivity | now rewrite IH]. Qed.

Lemma delimited_spaces n rest :
  Paths.delimited rest = true -> Paths.delimited (Paths.spaces n ++ rest) = true.
Proof. destruct n; simpl; auto. Qed.

Lemma delimited_selector s rest : Paths.delimited (Paths.render_selector s ++ rest) = true.
Proof. destruct s; reflexivity. Qed.

Lemma c_str_render_spaced path rest :
  forallb Paths.well_formed (map snd path) = true ->
  LibC.c_str (Paths.render_spaced path ++ rest) = Paths.render_spaced path ++ LibC.c_str rest.
Proof.
  induction path as [|[n s] path IH]; simpl; [reflexivity|].
  intros H. apply andb_prop in H. destruct H as [Hs Hp].
  rewrite !string_app_assoc, c_str_spaces, (c_str_app _ _ (c_str_selector s Hs)).
  now rewrite IH.
Qed.

(** Spaces before the selectors of a path change nothing to the loop. *)
Lemma run_query_walk_spaced (value : V) rest path : forall current,
  forallb Paths.well_formed (map snd path) = true -> Paths.delimited rest = true ->
  Paths.run_query value current (Paths.render_spaced path ++ rest) =
    Paths.walk (fun c => Paths.run_query value c rest) current (map snd path).
Proof.
  induction path as [|[n s] path IH]; intros current Hwf Hr; [reflexivity|].
  simpl in Hwf. apply andb_prop in Hwf. destruct Hwf as [Hs Hp].
  cbn [Paths.render_spaced map snd].
  rewrite !string_app_assoc, run_query_spaces.
  assert (Hd : Paths.delimited (Paths.render_spaced path ++ rest) = true).
  { destruct path as [|[m s'] path]; [exact Hr|].
    cbn [Paths.render_spaced]. rewrite !string_app_assoc.
    apply delimited_spaces, delimited_selector. }
  pose proof (run_query_walk value (Paths.render_spaced path ++ rest) [s] current) as Hone.
  cbn [Paths.render forallb] in Hone. rewrite Hs in Hone.
  rewrite string_app_empty in Hone.
  rewrite (Hone eq_refl Hd).
  cbn [Paths.walk].
  destruct current as [cur|]; [|reflexivity].
  destruct s as [key|text].
  - destruct (negb (dent_is_dict cur)); [reflexivity|].
    destruct (dent_get cur key); [|reflexivity]. now rewrite IH.
  - destruct (negb (dent_is_list cur)); [reflexivity|].
    destruct (dent_len cur <=? LibC.strtoul text); [reflexivity|]. now rewrite IH.
Qed.

End Endings.

(** X4.  A dot that ends the query is accepted on a dictionary and on
    nothing else: after a path that resolves to a value the engine
    serializes, the query tool writes the value when it is a dictionary, and
    the message that it is not one otherwise. *)
Theorem trailing_dot_wants_a_dict (V : Type) (E : Cdent V)
    (argv0 file : string) (path : list Paths.selector) (root target : V) (str : string) :
  dent_parse_file file = Some root ->
  forallb Paths.well_formed path = true ->
  Paths.resolve root path = Some target ->
  dent_to_str target = Some str ->
  snd (QueryTool.main [argv0; file; Paths.render path ++ "."]) =
    Exit (if dent_is_dict target then LibC.EXIT_SUCCESS else LibC.EXIT_FAILURE) /\
  printed (fst (QueryTool.main [argv0; file; Paths.render path ++ "."])) =
    [if dent_is_dict target then ("%s\n", [PStr str])
     else ("Error: value is not a dict\n", [])].
Proof.
  intros Hp Hwf Hres Hstr.
  destruct (main_resolved argv0 file path "." root target Hp Hwf eq_refl Hres)
    as (checks & Hchecks & ->).
  cbn [fst snd]. rewrite (printed_main file root checks _ Hchecks).
  change (LibC.c_str ".") with ".". rewrite run_query_dot.
  destruct (dent_is_dict target); cbn [negb].
  - rewrite (finish_printed root target str Hstr). split; reflexivity.
  - split; reflexivity.
Qed.

(** X5.  A key written between quotes never yields a value: the scan stops
    on the closing quote and the loop is not moved past it, so when the
    dictionary holds the key the next thing the tool reads is that quote,
    and it exits with the message for an unexpected character, whatever
    follows. *)
Theorem quoted_key_is_rejected (V : Type) (E : Cdent V)
    (argv0 file : string) (path : list Paths.selector) (key more : string)
    (root cur next : V) :
  dent_parse_file file = Some root ->
  forallb Paths.well_formed path = true ->
  Paths.resolve root path = Some cur ->
  dent_is_dict cur = true ->
  dent_get cur key = Some next ->
  QueryTool.find_char LibC.DQUOTE key = None ->
  LibC.c_str (key ++ String LibC.DQUOTE more) = key ++ String LibC.DQUOTE more ->
  let query :=
    Paths.render path ++ String "." (String LibC.DQUOTE (key ++ String LibC.DQUOTE more)) in
  snd (QueryTool.main [argv0; file; query]) = Exit LibC.EXIT_FAILURE /\
  printed (fst (QueryTool.main [argv0; file; query])) =
    [("Error: unexpected character '%c'\n", [PChar LibC.DQUOTE])].
Proof.
  intros Hp Hwf Hres Hd Hg Hf Hc query. subst query.
  destruct (main_resolved argv0 file path
              (String "." (String LibC.DQUOTE (key ++ String LibC.DQUOTE more)))
              root cur Hp Hwf eq_refl Hres)
    as (checks & Hchecks & ->).
  cbn [fst snd]. rewrite (printed_main file root checks _ Hchecks).
  assert (Hq : LibC.c_str (String "." (String LibC.DQUOTE (key ++ String LibC.DQUOTE more)))
               = String "." (String LibC.DQUOTE (key ++ String LibC.DQUOTE more))).
  { simpl. now rewrite Hc. }
  rewrite Hq, (run_query_quoted_key root cur next key more Hd Hg Hf).
  split; reflexivity.
Qed.

(** X6.  Spaces before a selector and at the end of the query change
    nothing: the query tool runs on a path written with any number of them
    as on the path written without. *)
Theorem spaces_are_skipped (V : Type) (E : Cdent V)
    (argv0 file : string) (path : list (nat * Paths.selector)) (n : nat) :
  forallb Paths.well_formed (map snd path) = true ->
  QueryTool.main [argv0; file; Paths.render_spaced path ++ Paths.spaces n] =
  QueryTool.main [argv0; file; Paths.render (map snd path)].
Proof.
  intros Hwf.
  unfold QueryTool.main.
  destruct (dent_parse_file file) as [root|]; [|reflexivity].
  cbv zeta.
  change (QueryTool.query_loop
            (S (String.length (LibC.c_str (Paths.render_spaced path ++ Paths.spaces n))))
            root (Some root) (LibC.c_str (Paths.render_spaced path ++ Paths.spaces n)))
    with (Paths.run_query root (Some root)
            (LibC.c_str (Paths.render_spaced path ++ Paths.spaces n))).
  change (QueryTool.query_loop
            (S (String.length (LibC.c_str (Paths.render (map snd path)))))
            root (Some root) (LibC.c_str (Paths.render (map snd path))))
    with (Paths.run_query root (Some root) (LibC.c_str (Paths.render (map snd path)))).
  assert (Hsame : Paths.run_query root (Some root)
                    (LibC.c_str (Paths.render_spaced path ++ Paths.spaces n)) =
                  Paths.run_query root (Some root)
                    (LibC.c_str (Paths.render (map snd path)))).
  { rewrite <- (string_app_empty (Paths.spaces n)).
    rewrite (c_str_render_spaced path _ Hwf), c_str_spaces.
    rewrite <- (string_app_empty (Paths.render (map snd path))).
    rewrite (c_str_render _ "" Hwf).
    rewrite run_query_walk_spaced, run_query_walk; auto.
    - apply walk_ext. intros c. apply run_query_spaces.
    - now apply delimited_spaces. }
  now rewrite Hsame.
Qed.

(** ** The scans of the query *)

Lemma key_scan_splits q :
  LibC.strndup q (QueryTool.key_len q) ++ LibC.advance (QueryTool.key_len q) q = q /\
  Paths.all_chars (fun c => negb (QueryTool.key_stop c))
    (LibC.strndup q (QueryTool.key_len q)) = true /\
  Paths.delimited (LibC.advance (QueryTool.key_len q) q) = true.
Proof.
  unfold LibC.strndup. induction q as [|c r (IH1 & IH2 & IH3)]; [now repeat split|].
  simpl. destruct (QueryTool.key_stop c) eqn:Hc; simpl.
  - rewrite Hc. now repeat split.
  - rewrite Hc, IH1, IH2. now repeat split.
Qed.

Lemma find_char_splits c q :
  match QueryTool.find_char c q with
  | Some n =>
      LibC.strndup q n ++ String c (LibC.advance (S n) q) = q /\
      QueryTool.find_char c (LibC.strndup q n) = None
  | None => Paths.all_chars (fun a => negb (Ascii.eqb a c)) q = true
  end.
Proof.
  unfold LibC.strndup. induction q as [|a r IH]; [reflexivity|].
  simpl. destruct (Ascii.eqb a c) eqn:Ha.
  - apply Ascii.eqb_eq in Ha. subst a. now split.
  - destruct (QueryTool.find_char c r) as [n|]; simpl.
    + destruct IH as [IH1 IH2]. simpl in IH1. rewrite Ha, IH1, IH2. now split.
    + now rewrite IH.
Qed.

(** X7.  The scans that delimit a selector split the query without loss.
    The scan of a bare key cuts the longest prefix free of space, bracket
    and dot, and leaves a rest that is empty or opens with one of them; the
    scan for a closing bracket or quote cuts the text before its first
    occurrence, and finds none only when there is none. *)
Theorem scans_split_the_query (q : string) (c : ascii) :
  (LibC.strndup q (QueryTool.key_len q) ++ LibC.advance (QueryTool.key_len q) q = q /\
   Paths.all_chars (fun a => negb (QueryTool.key_stop a))
     (LibC.strndup q (QueryTool.key_len q)) = true /\
   Paths.delimited (LibC.advance (QueryTool.key_len q) q) = true) /\
  match QueryTool.find_char c q with
  | Some n =>
      LibC.strndup q n ++ String c (LibC.advance (S n) q) = q /\
      QueryTool.find_char c (LibC.strndup q n) = None
  | None => Paths.all_chars (fun a => negb (Ascii.eqb a c)) q = true
  end.
Proof. split; [apply key_scan_splits | apply find_char_splits]. Qed.

(** ** Loops that end *)

Lemma functions_ends (V : Type) (E : Cdent V) : snd Functions.main <> OutOfFuel.
Proof.
  unfold Functions.main.
  destruct (dent_parse Functions.dent_data) as [root|]; [|discriminate].
  destruct (dent_is_list root); [|discriminate].
  destruct (sum_loop_releases root (S (Z.to_nat (dent_len root))) 0 0)
    as (_ & _ & _ & _ & Ho); [rewrite Z.sub_0_r; lia|].
  exact Ho.
Qed.

(** X8.  The loops of the programs end.  Each turn of the query tool's loop
    moves on by one character at least, so as many turns as the query has
    characters, and one, bring it to an exit or to a call through a null
    pointer, and more turns change nothing; the loop of
    [examples/functions.c] ends after one turn per item. *)
Theorem loops_end (V : Type) (E : Cdent V) (argv : list string)
    (value : V) (current : option V) (q : string) (more : nat) :
  QueryTool.query_loop (S (String.length q) + more) value current q =
    QueryTool.query_loop (S (String.length q)) value current q /\
  snd (QueryTool.query_loop (S (String.length q)) value current q) <> OutOfFuel /\
  snd (QueryTool.main argv) <> OutOfFuel /\
  snd Functions.main <> OutOfFuel.
Proof.
  split; [apply query_loop_fuel; lia|]. split; [|split].
  - pose proof (query_loop_shape value (S (String.length q)) current q
                  (Nat.lt_succ_diag_r _)) as Hrun.
    now destruct (loop_run_releases _ _ _ _ Hrun) as (_ & _ & _ & _ & Ho).
  - apply query_tool_ends.
  - apply functions_ends.
Qed.

(** ** What the examples write *)

Section Examples.
Context {V : Type} {E : Cdent V}.

Lemma sum_loop_items (root : V) items :
  items_of root items ->
  forall todo done acc fuel,
    items = (done ++ todo)%list ->
    Forall (fun x => dent_is_int x = true) todo ->
    sums_fit acc (map dent_as_int todo) ->
    (List.length todo < fuel)%nat ->
    snd (Functions.sum_loop fuel root (Z.of_nat (List.length done)) acc)
      = Exit LibC.EXIT_SUCCESS /\
    printed (fst (Functions.sum_loop fuel root (Z.of_nat (List.length done)) acc))
      = (value_lines (Z.of_nat (List.length done)) (map dent_as_int todo)
           ++ [("Sum: %ld\n", [PLong (acc + fold_right Z.add 0 (map dent_as_int todo))])])%list.
Proof.
  intros [Hlen Hget].
  induction todo as [|x todo IH]; intros done acc fuel Hitems Hint Hfit Hfuel;
    (destruct fuel as [|fuel]; [simpl in Hfuel; lia|]).
  - rewrite app_nil_r in Hitems. subst done.
    cbn [Functions.sum_loop]. rewrite Hlen, Z.ltb_irrefl.
    simpl. rewrite Z.add_0_r. now split.
  - assert (Hi : (List.length done < List.length items)%nat).
    { subst items. rewrite length_app. simpl. lia. }
    assert (Hx : dent_get_index root (Z.of_nat (List.length done)) = Some x).
    { rewrite (Hget _ Hi). subst items.
      rewrite nth_error_app2 by lia. now rewrite Nat.sub_diag. }
    inversion Hint as [|? ? Hxint Hint']; subst.
    simpl in Hfit. destruct Hfit as [Hrange Hfit].
    cbn [Functions.sum_loop].
    destruct (Z.of_nat (List.length done) <? dent_len root) eqn:Hlt;
      [|apply Z.ltb_ge in Hlt; lia].
    unfold Functions.as_int_at. rewrite Hx, Hxint. cbn [negb].
    destruct ((acc + dent_as_int x <? Functions.INT64_MIN)
              || (Functions.INT64_MAX <? acc + dent_as_int x)) eqn:Hov.
    { apply orb_true_iff in Hov. destruct Hov as [Hov|Hov]; apply Z.ltb_lt in Hov; lia. }
    specialize (IH (done ++ [x])%list (acc + dent_as_int x) fuel).
    rewrite length_app, Nat2Z.inj_add in IH. simpl List.length in IH.
    change (Z.of_nat 1) with 1 in IH.
    destruct IH as [IHo IHp]; auto.
    { now rewrite <- app_assoc. }
    { simpl in Hfuel. lia. }
    cbn [fst snd emit]. split; [exact IHo|].
    simpl printed. fold (printed (fst (Functions.sum_loop fuel root
                                         (Z.of_nat (List.length done) + 1)
                                         (acc + dent_as_int x)))).
    rewrite IHp. simpl. now rewrite Z.add_assoc.
Qed.

Lemma sum_loop_guarded (root : V) fuel : forall i sum,
  extraction_guarded (fst (Functions.sum_loop fuel root i sum)).
Proof.
  induction fuel as [|fuel IH]; intros i sum.
  { split; intros ? ? ? ? Heq; simpl in Heq; peel. }
  cbn [Functions.sum_loop]. unfold Functions.as_int_at.
  destruct (i <? dent_len root).
  2:{ split; intros ? ? ? ? Heq; simpl in Heq; peel. }
  destruct (dent_get_index root i) as [x|].
  2:{ split; intros ? ? ? ? Heq; simpl in Heq; peel. }
  destruct (dent_is_int x) eqn:Hx; cbn [negb].
  2:{ split; intros ? ? ? ? Heq; simpl in Heq; peel. }
  destruct (_ || _).
  { split; intros ? ? ? ? Heq; simpl in Heq; peel; simpl; auto. }
  destruct (IH (i + 1) (sum + dent_as_int x)) as [IHint IHstr].
  split; intros ? ? ? ? Heq; simpl in Heq; peel; simpl; auto 10;
    match goal with
    | H : fst _ = _ |- _ => first [apply IHint in H | apply IHstr in H]; auto 12
    end.
Qed.

End Examples.

(** X9.  [examples/functions.c] adds the items up.  When the text parses to
    a list whose items are all integers and no partial sum leaves
    [int64_t], the program writes one line per item, with its index and its
    value, then the sum of the values, and exits with [EXIT_SUCCESS]. *)
Theorem functions_writes_the_sum (V : Type) (E : Cdent V) (root : V) (items : list V) :
  dent_parse Functions.dent_data = Some root ->
  dent_is_list root = true ->
  items_of root items ->
  Forall (fun x => dent_is_int x = true) items ->
  sums_fit 0 (map dent_as_int items) ->
  snd Functions.main = Exit LibC.EXIT_SUCCESS /\
  printed (fst Functions.main) =
    (value_lines 0 (map dent_as_int items)
       ++ [("Sum: %ld\n", [PLong (fold_right Z.add 0 (map dent_as_int items))])])%list.
Proof.
  intros Hp Hl Hitems Hint Hfit.
  destruct (sum_loop_items root items Hitems items [] 0
              (S (Z.to_nat (dent_len root))) eq_refl Hint Hfit) as [Ho Hpr].
  { destruct Hitems as [Hlen _]. rewrite Hlen, Nat2Z.id. lia. }
  unfold Functions.main. rewrite Hp, Hl. cbn [negb fst snd emit].
  split; [exact Ho|]. exact Hpr.
Qed.

(** X9 at work: the four integers 1 to 4 add up to 10. *)
Lemma functions_writes_the_sum_witness :
  let root := Model.VList [Model.VInt 1; Model.VInt 2; Model.VInt 3; Model.VInt 4] in
  let E := Model.engine_of (Some root) in
  snd (Functions.main (E := E)) = Exit LibC.EXIT_SUCCESS /\
  printed (fst (Functions.main (E := E))) =
    [("Value at index %zu: %ld\n", [PSize 0; PLong 1]);
     ("Value at index %zu: %ld\n", [PSize 1; PLong 2]);
     ("Value at index %zu: %ld\n", [PSize 2; PLong 3]);
     ("Value at index %zu: %ld\n", [PSize 3; PLong 4]);
     ("Sum: %ld\n", [PLong 10])].
Proof.
  intros root E.
  apply (functions_writes_the_sum _ E root
           [Model.VInt 1; Model.VInt 2; Model.VInt 3; Model.VInt 4]).
  - reflexivity.
  - reflexivity.
  - split; [reflexivity|].
    intros i Hi. do 4 (destruct i as [|i]; [reflexivity|]). simpl in Hi. lia.
  - repeat constructor.
  - simpl. unfold Functions.INT64_MIN, Functions.INT64_MAX. lia.
Defined.

(** X10.  The examples extract only what they have checked: in
    [examples/functions.c] every [dent_as_int] is on a value for which
    [dent_is_int] answered true, and in [examples/simple.c] [dent_as_str] is
    on a value for which [dent_is_str] answered true, whatever the engine
    parses the data to. *)
Theorem examples_check_before_extracting (V : Type) (E : Cdent V) :
  extraction_guarded (fst Simple.main) /\ extraction_guarded (fst Functions.main).
Proof.
  split.
  - unfold Simple.main.
    destruct (dent_parse Simple.dent_data) as [root|].
    2:{ split; intros ? ? ? ? Heq; simpl in Heq; peel. }
    destruct (dent_get root "name") as [nm|].
    2:{ split; intros ? ? ? ? Heq; simpl in Heq; peel. }
    destruct (dent_is_str nm) eqn:Hs; cbn [negb].
    2:{ split; intros ? ? ? ? Heq; simpl in Heq; peel. }
    destruct (dent_as_str nm) as [str|];
      split; intros ? ? ? ? Heq; simpl in Heq; peel; simpl; auto.
  - unfold Functions.main.
    destruct (dent_parse Functions.dent_data) as [root|].
    2:{ split; intros ? ? ? ? Heq; simpl in Heq; peel. }
    destruct (dent_is_list root); cbn [negb].
    2:{ split; intros ? ? ? ? Heq; simpl in Heq; peel. }
    destruct (sum_loop_guarded root (S (Z.to_nat (dent_len root))) 0 0) as [Hint Hstr].
    remember (Functions.sum_loop _ root 0 0) as r eqn:Hr. clear Hr.
    split; intros ? ? ? ? Heq; simpl in Heq; peel;
      match goal with
      | H : fst _ = _ |- _ => first [apply Hint in H | apply Hstr in H]; simpl; auto
      end.
Qed.

(** X11.  [examples/simple.c] reports the first step that fails and exits
    with [EXIT_FAILURE]: data that does not parse, no child under ["name"],
    a child that is not a string.  It exits with [EXIT_SUCCESS] only when
    these three steps succeed; when they do and [dent_as_str] returns a
    text, it exits with [EXIT_SUCCESS] having written that text and nothing
    else. *)
Theorem simple_writes_the_name (V : Type) (E : Cdent V) :
  (dent_parse Simple.dent_data = None ->
   snd Simple.main = Exit LibC.EXIT_FAILURE /\
   printed (fst Simple.main) = [("Error parsing dent data\n", [])]) /\
  (forall root,
     dent_parse Simple.dent_data = Some root ->
     dent_get root "name" = None ->
     snd Simple.main = Exit LibC.EXIT_FAILURE /\
     printed (fst Simple.main) = [("Error getting name\n", [])]) /\
  (forall root nm,
     dent_parse Simple.dent_data = Some root ->
     dent_get root "name" = Some nm ->
     dent_is_str nm = false ->
     snd Simple.main = Exit LibC.EXIT_FAILURE /\
     printed (fst Simple.main) = [("Error name is not a string\n", [])]) /\
  (snd Simple.main = Exit LibC.EXIT_SUCCESS ->
   exists root nm,
     dent_parse Simple.dent_data = Some root /\
     dent_get root "name" = Some nm /\
     dent_is_str nm = true) /\
  (forall root nm str,
     dent_parse Simple.dent_data = Some root ->
     dent_get root "name" = Some nm ->
     dent_is_str nm = true ->
     dent_as_str nm = Some str ->
     snd Simple.main = Exit LibC.EXIT_SUCCESS /\
     printed (fst Simple.main) = [("Name: %s\n", [PStr str])]).
Proof.
  unfold Simple.main. repeat apply conj.
  - intros ->. split; reflexivity.
  - intros root -> ->. split; reflexivity.
  - intros root nm -> -> ->. split; reflexivity.
  - destruct (dent_parse Simple.dent_data) as [root|] eqn:Hp; [|discriminate].
    destruct (dent_get root "name") as [nm|] eqn:Hg; [|discriminate].
    destruct (dent_is_str nm) eqn:Hs; [|discriminate].
    intros _. exists root, nm. repeat split; assumption || reflexivity.
  - intros root nm str -> -> -> ->. split; reflexivity.
Qed.

(** ** The engine between [dent_init] and [dent_free] *)

Section Closing.
Context {V : Type} {E : Cdent V}.

Lemma last_stretch_closes (value : V) current tr o :
  last_stretch value current tr o ->
  free_is_last tr /\
  (forall pre post, tr = (pre ++ EvShutdown :: post)%list -> post = []).
Proof.
  induction 1 as [| | | | | | | | | |cur tr o Hd Hlast [IHf IHs]];
    try (split; [intros pre h post Heq | intros pre post Heq]; peel; reflexivity).
  split; [intros pre h post Heq | intros pre post Heq]; peel.
  - now apply (IHf _ _ _ eq_refl).
  - now apply (IHs _ _ eq_refl).
Qed.

Lemma loop_run_closes (value : V) current tr o :
  loop_run value current tr o ->
  free_is_last tr /\
  (forall pre post, tr = (pre ++ EvShutdown :: post)%list -> post = []).
Proof.
  induction 1 as [current tr o Hlast | cur index tr o Hl Hb Hrun [IHf IHs]
                 | cur key next tr o Hd Hg Hrun [IHf IHs]].
  - eapply last_stretch_closes; eassumption.
  - split; [intros pre h post Heq | intros pre post Heq]; peel.
    + now apply (IHf _ _ _ eq_refl).
    + now apply (IHs _ _ eq_refl).
  - split; [intros pre h post Heq | intros pre post Heq]; peel.
    + now apply (IHf _ _ _ eq_refl).
    + now apply (IHs _ _ eq_refl).
Qed.

Lemma sum_loop_closes (root : V) fuel : forall i sum,
  free_is_last (fst (Functions.sum_loop fuel root i sum)) /\
  (forall pre post,
     fst (Functions.sum_loop fuel root i sum) = (pre ++ EvShutdown :: post)%list ->
     post = []).
Proof.
  induction fuel as [|fuel IH]; intros i sum.
  { split; [intros pre h post Heq | intros pre post Heq]; simpl in Heq; peel. }
  cbn [Functions.sum_loop]. unfold Functions.as_int_at.
  destruct (i <? dent_len root).
  2:{ split; [intros pre h post Heq | intros pre post Heq]; simpl in Heq; peel;
        reflexivity. }
  destruct (dent_get_index root i) as [x|].
  2:{ split; [intros pre h post Heq | intros pre post Heq]; simpl in Heq; peel. }
  destruct (dent_is_int x); cbn [negb].
  2:{ split; [intros pre h post Heq | intros pre post Heq]; simpl in Heq; peel. }
  destruct (_ || _).
  { split; [intros pre h post Heq | intros pre post Heq]; simpl in Heq; peel. }
  destruct (IH (i + 1) (sum + dent_as_int x)) as [IHf IHs].
  split; [intros pre h post Heq | intros pre post Heq]; simpl in Heq; peel;
    match goal with
    | H : fst _ = _ |- _ => first [now apply IHf in H | now apply IHs in H]
    end.
Qed.

End Closing.

(** X12.  In the query tool and in both examples nothing is read through a
    handle that was released: [dent_free] is followed by [dent_shutdown] and
    by nothing else.  The engine is in use between [dent_init] and
    [dent_shutdown] only: a run that calls the engine at all opens with
    [dent_init], and [dent_shutdown] is the last call of a run that makes
    it. *)
Theorem engine_is_closed_last (V : Type) (E : Cdent V) (argv : list string) :
  (free_is_last (fst (QueryTool.main argv)) /\
   engine_bracketed (fst (QueryTool.main argv))) /\
  (free_is_last (fst Simple.main) /\ engine_bracketed (fst Simple.main)) /\
  (free_is_last (fst Functions.main) /\ engine_bracketed (fst Functions.main)).
Proof.
  split; [|split].
  - assert (Hopen : Forall (fun e : event V =>
                              match e with EvPrintf _ _ => True | _ => False end)
                      (fst (QueryTool.main argv)) \/
                    exists tr', fst (QueryTool.main argv) = EvInit :: tr').
    { destruct argv as [|a0 [|f [|q m]]]; simpl;
        [left; constructor | left; repeat constructor | left; repeat constructor
        | right; eauto]. }
    destruct (main_cases argv) as [(argv0 & file & query & more & root & -> & Hp) | Hno].
    + destruct (main_parsed argv0 file query more root Hp) as (tr & o & Hmain & Hrun).
      rewrite Hmain in *.
      destruct (loop_run_closes _ _ _ _ Hrun) as [Hf Hs]. cbn [fst] in *.
      split; [|split].
      * intros pre h post Heq. peel. now apply (Hf _ _ _ eq_refl).
      * exact Hopen.
      * intros pre post Heq. peel. now apply (Hs _ _ eq_refl).
    + destruct (main_not_parsed argv Hno) as (tr & o & Hmain & _ & _ & Hall).
      rewrite Hmain in *.
      rewrite Forall_forall in Hall. cbn [fst] in *.
      split; [|split].
      * intros pre h post ->. destruct (Hall _ (in_elt _ _ _)).
      * exact Hopen.
      * intros pre post ->. destruct (Hall _ (in_elt _ _ _)).
  - unfold Simple.main.
    destruct (dent_parse Simple.dent_data) as [root|].
    2:{ split; [intros ? ? ? Heq; simpl in Heq; peel|].
        split; [right; simpl; eauto | intros ? ? Heq; simpl in Heq; peel]. }
    destruct (dent_get root "name") as [nm|].
    2:{ split; [intros ? ? ? Heq; simpl in Heq; peel|].
        split; [right; simpl; eauto | intros ? ? Heq; simpl in Heq; peel]. }
    destruct (dent_is_str nm); cbn [negb].
    2:{ split; [intros ? ? ? Heq; simpl in Heq; peel|].
        split; [right; simpl; eauto | intros ? ? Heq; simpl in Heq; peel]. }
    destruct (dent_as_str nm) as [str|].
    + split; [intros ? ? ? Heq; simpl in Heq; peel; reflexivity|].
      split; [right; simpl; eauto | intros ? ? Heq; simpl in Heq; peel; reflexivity].
    + split; [intros ? ? ? Heq; simpl in Heq; peel|].
      split; [right; simpl; eauto | intros ? ? Heq; simpl in Heq; peel].
  - unfold Functions.main.
    destruct (dent_parse Functions.dent_data) as [root|].
    2:{ split; [intros ? ? ? Heq; simpl in Heq; peel|].
        split; [right; simpl; eauto | intros ? ? Heq; simpl in Heq; peel]. }
    destruct (dent_is_list root); cbn [negb].
    2:{ split; [intros ? ? ? Heq; simpl in Heq; peel|].
        split; [right; simpl; eauto | intros ? ? Heq; simpl in Heq; peel]. }
    destruct (sum_loop_closes root (S (Z.to_nat (dent_len root))) 0 0) as [Hf Hs].
    remember (Functions.sum_loop _ root 0 0) as r eqn:Hr. clear Hr.
    split; [intros ? ? ? Heq; simpl in Heq; peel;
            match goal with H : fst r = _ |- _ => now apply Hf in H end|].
    split; [right; simpl; eauto
           | intros ? ? Heq; simpl in Heq; peel;
             match goal with H : fst r = _ |- _ => now apply Hs in H end].
Qed.

(** ** The theorems above on the README's record *)

(** X1 at work: [.skills[1]] leads to the second skill. *)
Lemma path_prints_its_value_witness :
  let E := Model.engine_of (Some Model.mario) in
  let argv := ["dent"; "examples/dent/dict.dent"; ".skills[1]"] in
  snd (QueryTool.main (E := E) argv) = Exit LibC.EXIT_SUCCESS /\
  printed (fst (QueryTool.main (E := E) argv)) = [("%s\n", [PStr "<value>"])] /\
  In (EvToStr (Model.VStr "grows") (Some "<value>")) (fst (QueryTool.main (E := E) argv)).
Proof.
  exact (path_prints_its_value _ (Model.engine_of (Some Model.mario))
           "dent" "examples/dent/dict.dent" [Paths.Key "skills"; Paths.Index "1"]
           Model.mario (Model.VStr "grows") "<value>"
           eq_refl eq_refl eq_refl eq_refl).
Defined.

(** The engine over the value tree finds its items. *)
Lemma model_finds_items (root : option Model.value) :
  Paths.finds_items (E := Model.engine_of root).
Proof.
  intros cur i Hl [H0 Hlt]. destruct cur; try discriminate.
  simpl in *. unfold Model.get_index.
  destruct (i <? 0) eqn:Hneg; [apply Z.ltb_lt in Hneg; lia|].
  apply nth_error_Some. lia.
Qed.

(** X2 at work: the record holds no weight. *)
Lemma unresolved_path_yields_nothing_witness :
  let E := Model.engine_of (Some Model.mario) in
  let argv := ["dent"; "examples/dent/dict.dent"; ".weight"] in
  snd (QueryTool.main (E := E) argv) = Exit LibC.EXIT_FAILURE /\
  quiet (QueryTool.main (E := E) argv).
Proof.
  exact (unresolved_path_yields_nothing _ (Model.engine_of (Some Model.mario))
           "dent" "examples/dent/dict.dent" [Paths.Key "weight"] Model.mario
           (model_finds_items _) eq_refl eq_refl eq_refl).
Defined.

(** X3 at work: there is no third skill, and the key after it is not read. *)
Lemma first_failure_is_reported_witness :
  let E := Model.engine_of (Some Model.mario) in
  let argv := ["dent"; "examples/dent/dict.dent"; ".skills[2].x"] in
  snd (QueryTool.main (E := E) argv) = Exit LibC.EXIT_FAILURE /\
  printed (fst (QueryTool.main (E := E) argv)) = [("Error: index out of bounds\n", [])].
Proof.
  exact (first_failure_is_reported _ (Model.engine_of (Some Model.mario))
           "dent" "examples/dent/dict.dent" [Paths.Key "skills"] [Paths.Key "x"]
           (Paths.Index "2") Model.mario
           (Model.VList [Model.VStr "jumps"; Model.VStr "grows"])
           "Error: index out of bounds\n"
           eq_refl eq_refl eq_refl eq_refl).
Defined.

(** X4 at work: a dot after the name, which is a string. *)
Lemma trailing_dot_wants_a_dict_witness :
  let E := Model.engine_of (Some Model.mario) in
  let argv := ["dent"; "examples/dent/dict.dent"; ".name."] in
  snd (QueryTool.main (E := E) argv) = Exit LibC.EXIT_FAILURE /\
  printed (fst (QueryTool.main (E := E) argv)) = [("Error: value is not a dict\n", [])].
Proof.
  exact (trailing_dot_wants_a_dict _ (Model.engine_of (Some Model.mario))
           "dent" "examples/dent/dict.dent" [Paths.Key "name"] Model.mario
           (Model.VStr "Mario") "<value>"
           eq_refl eq_refl eq_refl eq_refl).
Defined.

(** X5 at work: the name asked for between quotes. *)
Lemma quoted_key_is_rejected_witness :
  let E := Model.engine_of (Some Model.mario) in
  let argv := ["dent"; "examples/dent/dict.dent";
               String "." (String LibC.DQUOTE ("name" ++ String LibC.DQUOTE ""))] in
  snd (QueryTool.main (E := E) argv) = Exit LibC.EXIT_FAILURE /\
  printed (fst (QueryTool.main (E := E) argv)) =
    [("Error: unexpected character '%c'\n", [PChar LibC.DQUOTE])].
Proof.
  exact (quoted_key_is_rejected _ (Model.engine_of (Some Model.mario))
           "dent" "examples/dent/dict.dent" [] "name" "" Model.mario Model.mario
           (Model.VStr "Mario")
           eq_refl eq_refl eq_refl eq_refl eq_refl eq_refl eq_refl).
Defined.

(** X6 at work: the same path with spaces. *)
Lemma spaces_are_skipped_witness :
  let E := Model.engine_of (Some Model.mario) in
  QueryTool.main (E := E) ["dent"; "examples/dent/dict.dent"; " .skills  [1]   "] =
  QueryTool.main (E := E) ["dent"; "examples/dent/dict.dent"; ".skills[1]"].
Proof.
  exact (spaces_are_skipped _ (Model.engine_of (Some Model.mario))
           "dent" "examples/dent/dict.dent"
           [(1%nat, Paths.Key "skills"); (2%nat, Paths.Index "1")] 3 eq_refl).
Defined.

(** ** Indices that do not fit *)

Lemma strtoul_numeral digits :
  LibC.decimal_numeral digits = true ->
  LibC.strtoul digits =
    if LibC.ULONG_MAX <? LibC.digits_value digits 0
    then LibC.ULONG_MAX else LibC.digits_value digits 0.
Proof.
  intros Hd. destruct digits as [|c r]; [discriminate|].
  unfold LibC.decimal_numeral in Hd. simpl in Hd.
  destruct (LibC.digit_val c) as [d|] eqn:Hc; [|discriminate].
  destruct (digit_not_space_or_sign c d Hc) as (Hs & Hm & Hp).
  unfold LibC.strtoul. simpl LibC.skip_space. rewrite Hs.
  unfold LibC.strip_sign. now rewrite Hm, Hp.
Qed.

(** X13.  An index written with more digits than [unsigned long] holds is
    read as [ULONG_MAX], which no length exceeds: on a list, the query tool
    writes that the index is out of bounds and exits with [EXIT_FAILURE]. *)
Theorem overflowing_index_is_out_of_bounds (V : Type) (E : Cdent V)
    (argv0 file : string) (before later : list Paths.selector) (digits : string)
    (root cur : V) :
  dent_parse_file file = Some root ->
  forallb Paths.well_formed (before ++ Paths.Index digits :: later) = true ->
  Paths.resolve root before = Some cur ->
  dent_is_list cur = true ->
  dent_len cur <= LibC.ULONG_MAX ->
  LibC.decimal_numeral digits = true ->
  LibC.ULONG_MAX < LibC.digits_value digits 0 ->
  snd (QueryTool.main [argv0; file; Paths.render (before ++ Paths.Index digits :: later)])
    = Exit LibC.EXIT_FAILURE /\
  printed (fst (QueryTool.main
                  [argv0; file; Paths.render (before ++ Paths.Index digits :: later)]))
    = [("Error: index out of bounds\n", [])].
Proof.
  intros Hp Hwf Hres Hl Hlen Hd Hbig.
  apply (main_complaint V E argv0 file before later (Paths.Index digits) root cur _
           Hp Hwf Hres).
  simpl. rewrite Hl. cbn [negb].
  rewrite (strtoul_numeral digits Hd).
  destruct (LibC.ULONG_MAX <? LibC.digits_value digits 0) eqn:Hov;
    [|apply Z.ltb_ge in Hov; lia].
  destruct (dent_len cur <=? LibC.ULONG_MAX) eqn:Hle; [reflexivity|].
  apply Z.leb_gt in Hle. lia.
Qed.

(** X13 at work: the skill at index 2 to the power 64. *)
Lemma overflowing_index_is_out_of_bounds_witness :
  let E := Model.engine_of (Some Model.mario) in
  let argv := ["dent"; "examples/dent/dict.dent"; ".skills[18446744073709551616]"] in
  snd (QueryTool.main (E := E) argv) = Exit LibC.EXIT_FAILURE /\
  printed (fst (QueryTool.main (E := E) argv)) = [("Error: index out of bounds\n", [])].
Proof.
  intros E argv.
  apply (overflowing_index_is_out_of_bounds _ E
           "dent" "examples/dent/dict.dent" [Paths.Key "skills"] []
           "18446744073709551616" Model.mario
           (Model.VList [Model.VStr "jumps"; Model.VStr "grows"])).
  - reflexivity.
  - reflexivity.
  - reflexivity.
  - reflexivity.
  - vm_compute. discriminate.
  - reflexivity.
  - reflexivity.
Defined.
